(** * Product Management System: the catalog controller of [script.js]

    A shallow embedding of the [ProductManager] class (product collection,
    edit session, debounced search, filter and pagination pipeline, form
    validation) together with the JavaScript primitives it relies on, and
    the properties of the specification established on it. *)

From Stdlib Require Import ZArith QArith Qround Ascii.
From stdpp Require Import base tactics option list sorting strings pretty.

Local Open Scope Z_scope.

(** ** JavaScript primitives used by the controller *)

Module JS.

(** Strings are sequences of code units; the model covers the code units
    below 256 (Latin-1), one [ascii] per code unit. *)

Definition code (c : ascii) : N := N_of_ascii c.

(** [String.prototype.toLowerCase] on one code unit: [A-Z] and the Latin-1
    capitals U+00C0..U+00DE (the multiplication sign U+00D7 apart) move 32
    up; every other Latin-1 code unit is its own lower case. *)
Definition isUpper (c : ascii) : bool :=
  let n := code c in
  ((65 <=? n) && (n <=? 90) || (192 <=? n) && (n <=? 222) && negb (n =? 215))%N.

Definition lowerChar (c : ascii) : ascii :=
  if isUpper c then ascii_of_N (code c + 32) else c.

Fixpoint toLowerCase (s : string) : string :=
  match s with
  | EmptyString => EmptyString
  | String c s' => String (lowerChar c) (toLowerCase s')
  end.

(** White space and line terminators removed by [trim] (and skipped by
    [parseFloat] and [parseInt]): TAB, LF, VT, FF, CR, SP and NBSP. *)
Definition isWhiteSpace (c : ascii) : bool :=
  let n := code c in
  ((9 <=? n) && (n <=? 13) || (n =? 32) || (n =? 160))%N.

Fixpoint trimStart (s : string) : string :=
  match s with
  | EmptyString => EmptyString
  | String c s' => if isWhiteSpace c then trimStart s' else s
  end.

Fixpoint trimEnd (s : string) : string :=
  match s with
  | EmptyString => EmptyString
  | String c s' =>
      match trimEnd s' with
      | EmptyString => if isWhiteSpace c then EmptyString else String c EmptyString
      | r => String c r
      end
  end.

Definition trim (s : string) : string := trimEnd (trimStart s).

(** [s.startsWith(t)] *)
Fixpoint startsWith (s t : string) {struct t} : bool :=
  match t, s with
  | EmptyString, _ => true
  | String _ _, EmptyString => false
  | String b t', String a s' => if decide (a = b) then startsWith s' t' else false
  end.

(** [s.includes(t)]: [t] occurs in [s] at some position. *)
Fixpoint includes (s t : string) : bool :=
  startsWith s t ||
  match s with
  | EmptyString => false
  | String _ s' => includes s' t
  end.

(** Truthiness of a string: only the empty string is falsy. *)
Definition truthy (s : string) : bool :=
  match s with EmptyString => false | _ => true end.

(** [Array.prototype.slice(start, end)] with integer arguments: a negative
    index counts from the end, and both are clamped to [0, length]. *)
Definition relIndex (len i : Z) : Z :=
  if i <? 0 then Z.max (len + i) 0 else Z.min i len.

Definition slice {A} (l : list A) (start stop : Z) : list A :=
  let len := Z.of_nat (length l) in
  let k := relIndex len start in
  let final := relIndex len stop in
  take (Z.to_nat (final - k)) (drop (Z.to_nat k) l).

(** [Math.ceil] of a quotient, the quotient taken exactly (the divisor in
    this program is the page size, which is never zero). *)
Definition Math_ceil (q : Q) : Z := Qceiling q.

(** Numbers read from text. [Num neg m e] stands for the decimal
    [(-1)^neg * m * 10^e] a literal denotes (JavaScript stores the double
    nearest to it, and keeps the sign of a zero). *)
Inductive number :=
| NaN
| Infinity (neg : bool)
| Num (neg : bool) (m : N) (e : Z).

Definition isNaN (x : number) : bool :=
  match x with NaN => true | _ => false end.

(** A non-zero decimal is stored as zero when it is at most 2^-1075, half
    of the least positive double. *)
Definition roundsToZero (m : N) (e : Z) : bool :=
  if (m =? 0)%N then true
  else if 0 <=? e then false
  else Z.of_N m * 2 ^ 1075 <=? 10 ^ (- e).

(** [x < 0] on numbers: false for NaN and for both zeros. *)
Definition ltZero (x : number) : bool :=
  match x with
  | NaN => false
  | Infinity neg => neg
  | Num neg m e => neg && negb (roundsToZero m e)
  end.

(** [x || 0]: NaN and the zeros are falsy. *)
Definition orZero (x : number) : number :=
  match x with
  | NaN => Num false 0 0
  | Infinity _ => x
  | Num _ m e => if roundsToZero m e then Num false 0 0 else x
  end.

Definition digitVal (c : ascii) : option N :=
  let n := code c in
  if ((48 <=? n) && (n <=? 57))%N then Some (n - 48)%N else None.

Definition hexVal (c : ascii) : option N :=
  let n := code c in
  if ((48 <=? n) && (n <=? 57))%N then Some (n - 48)%N
  else if ((97 <=? n) && (n <=? 102))%N then Some (n - 87)%N
  else if ((65 <=? n) && (n <=? 70))%N then Some (n - 55)%N
  else None.

(** The longest run of digits (in the given radix) at the head of [s]:
    how many there are, their value, and what follows them. *)
Fixpoint digits (val : ascii -> option N) (radix : N)
    (count : nat) (acc : N) (s : string) : nat * N * string :=
  match s with
  | EmptyString => (count, acc, s)
  | String c s' =>
      match val c with
      | Some d => digits val radix (S count) (acc * radix + d)%N s'
      | None => (count, acc, s)
      end
  end.

Definition signOf (s : string) : bool * string :=
  match s with
  | String "-" s' => (true, s')
  | String "+" s' => (false, s')
  | _ => (false, s)
  end.

(** [parseInt(s)] without a radix: leading white space, an optional sign,
    an optional [0x]/[0X] prefix selecting radix 16, then the longest run
    of digits; NaN when that run is empty. *)
Definition parseInt (s : string) : number :=
  let '(neg, body) := signOf (trimStart s) in
  let '(val, radix, body) :=
    match body with
    | String "0" (String "x" r) | String "0" (String "X" r) => (hexVal, 16%N, r)
    | _ => (digitVal, 10%N, body)
    end in
  match digits val radix 0 0 body with
  | (O, _, _) => NaN
  | (_, n, _) => Num neg n 0
  end.

(** The exponent part [e|E [+|-] digits] of a decimal literal, when one
    is there; 0 otherwise. *)
Definition exponentPart (s : string) : Z :=
  match s with
  | String "e" r | String "E" r =>
      let '(neg, r') := signOf r in
      match digits digitVal 10 0 0 r' with
      | (O, _, _) => 0
      | (_, n, _) => if neg then - Z.of_N n else Z.of_N n
      end
  | _ => 0
  end.

(** [parseFloat(s)]: leading white space, then the longest prefix that is
    a [StrDecimalLiteral]: an optional sign followed by [Infinity], or by
    digits with an optional fraction and exponent, or by a fraction
    starting with the point; NaN when there is no such prefix. *)
Definition parseFloat (s : string) : number :=
  let '(neg, body) := signOf (trimStart s) in
  if startsWith body "Infinity" then Infinity neg
  else
    let '(ni, int, rest) := digits digitVal 10 0 0 body in
    match rest with
    | String "." frac =>
        let '(nf, m, rest') := digits digitVal 10 0 int frac in
        match ni, nf with
        | O, O => NaN
        | _, _ => Num neg m (exponentPart rest' - Z.of_nat nf)
        end
    | _ =>
        match ni with
        | O => NaN
        | _ => Num neg int (exponentPart rest)
        end
    end.

(** [Number.prototype.toString] on an integral number such as the time
    value [Date.now()] returns: its decimal digits, after a minus sign when
    it is negative. *)
Definition toString (n : Z) : string := pretty n.

End JS.

(** ** The data model

    The markup that [renderListView], [renderCardView], [renderPagination]
    and [getEmptyStateHTML] produce, the theme switch and the notifications
    are presentation; of rendering the model keeps which derived view was
    drawn. *)

Record Product := {
  id : string;
  name : string;
  price : JS.number;
  category : string;
  stock : JS.number;
  description : string;
  image : string;
}.

(** [currentView] is ['list'] or ['card']. *)
Inductive View := ListView | CardView.

(** A timer handle as [setTimeout] returns it: an integer above zero,
    hence always truthy. *)
Definition Handle := positive.

(** The fields the constructor sets. [editingId] and [debounceTimer] are
    [null] ([None]) at first. *)
Record ProductManager := {
  products : list Product;
  currentView : View;
  currentPage : Z;
  itemsPerPage : Z;
  searchTerm : string;
  editingId : option string;
  debounceTimer : option Handle;
}.

(** What [getPaginatedProducts] returns. *)
Record Page := {
  pg_products : list Product;
  pg_total : nat;
  pg_totalPages : Z;
}.

(** One run of [renderProducts]: the mode and the derived view it drew. *)
Record Frame := {
  fr_view : View;
  fr_current : Z;
  fr_term : string;
  fr_page : Page;
}.

(** The controller in its environment: the timers of the page that are
    still pending, each with the time from which it may fire; the next
    handle [setTimeout] hands out; the frames rendered so far, oldest
    first; and the text of the error element of each form field. *)
Record World := {
  mgr : ProductManager;
  timers : list (Handle * Z);
  nextHandle : Handle;
  frames : list Frame;
  fieldErrors : string → string;
}.

Definition with_mgr (f : ProductManager → ProductManager) (w : World) : World :=
  {| mgr := f (mgr w); timers := timers w; nextHandle := nextHandle w;
     frames := frames w; fieldErrors := fieldErrors w |}.

Definition set_products (ps : list Product) (m : ProductManager) : ProductManager :=
  {| products := ps; currentView := currentView m; currentPage := currentPage m;
     itemsPerPage := itemsPerPage m; searchTerm := searchTerm m;
     editingId := editingId m; debounceTimer := debounceTimer m |}.

Definition set_currentView (v : View) (m : ProductManager) : ProductManager :=
  {| products := products m; currentView := v; currentPage := currentPage m;
     itemsPerPage := itemsPerPage m; searchTerm := searchTerm m;
     editingId := editingId m; debounceTimer := debounceTimer m |}.

Definition set_currentPage (n : Z) (m : ProductManager) : ProductManager :=
  {| products := products m; currentView := currentView m; currentPage := n;
     itemsPerPage := itemsPerPage m; searchTerm := searchTerm m;
     editingId := editingId m; debounceTimer := debounceTimer m |}.

Definition set_searchTerm (t : string) (m : ProductManager) : ProductManager :=
  {| products := products m; currentView := currentView m; currentPage := currentPage m;
     itemsPerPage := itemsPerPage m; searchTerm := t;
     editingId := editingId m; debounceTimer := debounceTimer m |}.

Definition set_editingId (e : option string) (m : ProductManager) : ProductManager :=
  {| products := products m; currentView := currentView m; currentPage := currentPage m;
     itemsPerPage := itemsPerPage m; searchTerm := searchTerm m;
     editingId := e; debounceTimer := debounceTimer m |}.

Definition set_debounceTimer (h : option Handle) (m : ProductManager) : ProductManager :=
  {| products := products m; currentView := currentView m; currentPage := currentPage m;
     itemsPerPage := itemsPerPage m; searchTerm := searchTerm m;
     editingId := editingId m; debounceTimer := h |}.

(** The constructor, before [init] renders for the first time. *)
Definition constructed : ProductManager :=
  {| products := []; currentView := ListView; currentPage := 1;
     itemsPerPage := 6; searchTerm := ""; editingId := None;
     debounceTimer := None |}.

(** ** Filter and pagination *)

Definition getFilteredProducts (m : ProductManager) : list Product :=
  if negb (JS.truthy (searchTerm m)) then products m
  else filter (λ product,
         JS.includes (JS.toLowerCase (name product)) (searchTerm m) = true)
         (products m).

Definition getPaginatedProducts (m : ProductManager) : Page :=
  let filtered := getFilteredProducts m in
  let startIndex := (currentPage m - 1) * itemsPerPage m in
  let endIndex := startIndex + itemsPerPage m in
  {| pg_products := JS.slice filtered startIndex endIndex;
     pg_total := length filtered;
     pg_totalPages :=
       JS.Math_ceil (inject_Z (Z.of_nat (length filtered)) / inject_Z (itemsPerPage m)) |}.

(** [renderProducts] draws the derived view of the current state (the
    empty state when there is nothing to show); the model records what
    was drawn. *)
Definition renderProducts (w : World) : World :=
  {| mgr := mgr w; timers := timers w; nextHandle := nextHandle w;
     frames := frames w ++
       [{| fr_view := currentView (mgr w); fr_current := currentPage (mgr w);
           fr_term := searchTerm (mgr w);
           fr_page := getPaginatedProducts (mgr w) |}];
     fieldErrors := fieldErrors w |}.

Definition changePage (page : Z) (w : World) : World :=
  let totalPages := pg_totalPages (getPaginatedProducts (mgr w)) in
  if (1 <=? page) && (page <=? totalPages)
  then renderProducts (with_mgr (set_currentPage page) w)
  else w.

Definition switchView (view : View) (w : World) : World :=
  renderProducts (with_mgr (set_currentView view) w).

(** ** Collection operations *)

Definition addProduct (product : Product) (w : World) : World :=
  renderProducts (with_mgr (λ m, set_products (products m ++ [product]) m) w).

Definition updateProduct (product : Product) (w : World) : World :=
  match list_find (λ p, id p = id product) (products (mgr w)) with
  | Some (index, _) =>
      renderProducts
        (with_mgr (λ m, set_products (<[index := product]> (products m)) m) w)
  | None => w
  end.

(** [confirmed] is the answer of the [confirm] dialog. *)
Definition deleteProduct (i : string) (confirmed : bool) (w : World) : World :=
  if confirmed
  then renderProducts
         (with_mgr (λ m, set_products (filter (λ p, id p ≠ i) (products m)) m) w)
  else w.

(** ** The edit session *)

Definition editProduct (i : string) (w : World) : World :=
  match list_find (λ p, id p = i) (products (mgr w)) with
  | None => w
  | Some _ => with_mgr (set_editingId (Some i)) w
  end.

Definition resetForm (w : World) : World :=
  {| mgr := set_editingId None (mgr w); timers := timers w;
     nextHandle := nextHandle w; frames := frames w;
     fieldErrors := λ _, "" |}.

Definition cancelEdit (w : World) : World :=
  resetForm (with_mgr (set_editingId None) w).

(** ** Form validation *)

(** A form control as [validateField] reads it: its [name], its [value]
    and whether it carries the [required] attribute. *)
Record Field := {
  f_name : string;
  f_value : string;
  f_required : bool;
}.

(** What the user has entered in the form when it is submitted. *)
Record Draft := {
  d_name : string;
  d_price : string;
  d_category : string;
  d_stock : string;
  d_description : string;
}.

(** Modelled from the spec: the markup of the form ([index.html]) is not
    part of the sources. Its controls are the five fields of a draft, of
    which name, price, category and stock are required inputs or selects
    and the description is an optional text area. *)
Definition formControls (d : Draft) : list Field :=
  [ {| f_name := "name"; f_value := d_name d; f_required := true |};
    {| f_name := "price"; f_value := d_price d; f_required := true |};
    {| f_name := "category"; f_value := d_category d; f_required := true |};
    {| f_name := "stock"; f_value := d_stock d; f_required := true |};
    {| f_name := "description"; f_value := d_description d; f_required := false |} ].

Definition getFieldLabel (fieldName : string) : string :=
  if decide (fieldName = "name") then "Name"
  else if decide (fieldName = "price") then "Price"
  else if decide (fieldName = "category") then "Category"
  else if decide (fieldName = "stock") then "Stock"
  else if decide (fieldName = "description") then "Description"
  else fieldName.

(** The verdict of [validateField] and the text it leaves in the error
    element of the field (empty when the field passes). *)
Definition checkField (field : Field) : bool * string :=
  let fieldName := f_name field in
  let value := JS.trim (f_value field) in
  if f_required field && negb (JS.truthy value)
  then (false, getFieldLabel fieldName +:+ " is required")
  else if bool_decide (fieldName = "price") && JS.truthy value
          && (let price := JS.parseFloat value in
              JS.isNaN price || JS.ltZero price)
  then (false, "Price must be a valid positive number")
  else if bool_decide (fieldName = "stock") && JS.truthy value
          && (let stock := JS.parseInt value in
              JS.isNaN stock || JS.ltZero stock)
  then (false, "Stock must be a valid non-negative integer")
  else (true, "").

Definition set_fieldError (fieldName text : string) (w : World) : World :=
  {| mgr := mgr w; timers := timers w; nextHandle := nextHandle w;
     frames := frames w;
     fieldErrors := λ n, if decide (n = fieldName) then text else fieldErrors w n |}.

Definition validateField (field : Field) (w : World) : bool * World :=
  let '(ok, text) := checkField field in
  (ok, set_fieldError (f_name field) text w).

Definition clearFieldError (fieldName : string) (w : World) : World :=
  set_fieldError fieldName "" w.

(** The body of the loop of [validateForm]: one field is validated and
    [isValid] is cleared when it fails. *)
Definition visitField (acc : bool * World) (field : Field) : bool * World :=
  let '(isValid, w) := acc in
  let '(ok, w') := validateField field w in
  (if ok then isValid else false, w').

(** [validateForm] visits every required input and select, also after a
    first failure. *)
Definition validateForm (d : Draft) (w : World) : bool * World :=
  foldl visitField (true, w) (filter (λ f, f_required f = true) (formControls d)).

(** ** Submitting the form *)

Definition dummyImage : string :=
  "https://images.unsplash.com/photo-1633174524827-db00a6b7bc74?w=500&auto=format&fit=crop&q=60&ixlib=rb-4.1.0&ixid=M3wxMjA3fDB8MHxzZWFyY2h8M3x8YW1hem9ufGVufDB8fDB8fHww".

(** Whether [this.editingId] is truthy: neither [null] nor empty. *)
Definition editing (m : ProductManager) : option string :=
  match editingId m with
  | Some i => if JS.truthy i then Some i else None
  | None => None
  end.

(** [now] is what [Date.now()] returns when the form is submitted. *)
Definition productData (d : Draft) (now : Z) (m : ProductManager) : Product :=
  {| id := default (JS.toString now) (editing m);
     name := JS.trim (d_name d);
     price := JS.parseFloat (d_price d);
     category := d_category d;
     stock := JS.orZero (JS.parseInt (d_stock d));
     description := JS.trim (d_description d);
     image := dummyImage |}.

Definition handleFormSubmit (d : Draft) (now : Z) (w : World) : World :=
  let '(isValid, w) := validateForm d w in
  if negb isValid then w
  else
    let product := productData d now (mgr w) in
    resetForm (match editing (mgr w) with
               | Some _ => updateProduct product w
               | None => addProduct product w
               end).

(** ** Search with debounce *)

(** [clearTimeout(h)]: the timer, if still pending, will not fire. *)
Definition clearTimeout (h : Handle) (w : World) : World :=
  {| mgr := mgr w; timers := filter (λ x, x.1 ≠ h) (timers w);
     nextHandle := nextHandle w; frames := frames w;
     fieldErrors := fieldErrors w |}.

(** [setTimeout(callback, delay)] called at time [t]: a fresh handle,
    pending until it fires, at [t + delay] at the earliest, or is cleared.
    The only callbacks kept are those of [handleSearch]; the timers that
    remove a notification touch nothing but their own element. *)
Definition setTimeout (t delay : Z) (w : World) : Handle * World :=
  (nextHandle w,
   {| mgr := mgr w; timers := timers w ++ [(nextHandle w, t + delay)];
      nextHandle := Pos.succ (nextHandle w); frames := frames w;
      fieldErrors := fieldErrors w |}).

(** [handleSearch(term)] called at time [t]. *)
Definition handleSearch (t : Z) (term : string) (w : World) : World :=
  let w := with_mgr (set_searchTerm (JS.trim (JS.toLowerCase term))) w in
  let w := match debounceTimer (mgr w) with
           | Some h => clearTimeout h w
           | None => w
           end in
  let '(h, w) := setTimeout t 500 w in
  with_mgr (set_debounceTimer (Some h)) w.

(** The callback [handleSearch] schedules. *)
Definition searchCallback (w : World) : World :=
  renderProducts (with_mgr (set_currentPage 1) w).

(** The timer [h] fires at time [t]: possible only when it is pending and
    its delay has elapsed; it is then no longer pending and its callback
    runs. *)
Definition fireTimer (t : Z) (h : Handle) (w : World) : option World :=
  if bool_decide (Exists (λ x, x.1 = h ∧ x.2 ≤ t) (timers w))
  then Some (searchCallback (clearTimeout h w))
  else None.

(** ** The event loop *)

Inductive Event :=
| Submit (d : Draft) (now : Z)
| Delete (i : string) (confirmed : bool)
| Edit (i : string)
| CancelEdit
| Blur (field : Field)
| Input (fieldName : string)
| Search (term : string)
| Fire (h : Handle)
| ChangePage (page : Z)
| SwitchView (view : View).

(** One listener (or timer) runs to completion at time [t]. *)
Definition step (t : Z) (e : Event) (w : World) : option World :=
  match e with
  | Submit d now => Some (handleFormSubmit d now w)
  | Delete i confirmed => Some (deleteProduct i confirmed w)
  | Edit i => Some (editProduct i w)
  | CancelEdit => Some (cancelEdit w)
  | Blur field => Some (validateField field w).2
  | Input fieldName => Some (clearFieldError fieldName w)
  | Search term => Some (handleSearch t term w)
  | Fire h => fireTimer t h w
  | ChangePage page => Some (changePage page w)
  | SwitchView view => Some (switchView view w)
  end.

(** A run of the page from time [t0]: events in the order of their
    times. [None] when the run is impossible (time going backwards, a timer
    firing that is not due). *)
Fixpoint run (t0 : Z) (tr : list (Z * Event)) (w : World) : option World :=
  match tr with
  | [] => Some w
  | (t, e) :: tr' =>
      if t0 <=? t then w' ← step t e w; run t tr' w' else None
  end.

(** The page once the constructor and [init] are done. *)
Definition initial : World :=
  renderProducts
    {| mgr := constructed; timers := []; nextHandle := 1%positive;
       frames := []; fieldErrors := λ _, "" |}.

Definition reachable (w : World) : Prop :=
  ∃ t0 tr, run t0 tr initial = Some w.

Definition ids (w : World) : list string := id <$> products (mgr w).

(** ** Notions the properties are stated with *)

(** [t] occurs in [s] up to case: some substring of [s] and [t] have the
    same lower case. *)
Definition containsIgnoreCase (s t : string) : Prop :=
  ∃ pre u post, s = pre +:+ u +:+ post ∧ JS.toLowerCase u = JS.toLowerCase t.

(** The constraints of the data model on the page number and the page
    size; every state of the running page meets them. *)
Definition paged (m : ProductManager) : Prop :=
  1 ≤ currentPage m ∧ 0 < itemsPerPage m.


(** Two worlds with the same controller, timers and frames: they differ
    at most in the error texts shown next to the form fields. *)
Definition sameController (w w' : World) : Prop :=
  mgr w' = mgr w ∧ timers w' = timers w ∧ nextHandle w' = nextHandle w ∧
  frames w' = frames w.

(** Submitting [d] in [w] reaches [addProduct]: the draft is valid and no
    edit is in progress. *)
Definition adds (d : Draft) (w : World) : Prop :=
  (validateForm d w).1 = true ∧ editing (mgr w) = None.

(** Along the run [tr] from [w], every submit that adds a product reads a
    clock whose decimal text is not yet an id of the collection. *)
Fixpoint freshAdds (tr : list (Z * Event)) (w : World) : Prop :=
  match tr with
  | [] => True
  | (t, e) :: tr' =>
      match e with
      | Submit d now => adds d w → JS.toString now ∉ ids w
      | _ => True
      end ∧
      match step t e w with
      | Some w' => freshAdds tr' w'
      | None => True
      end
  end.

(** The readings of [Date.now()] at the submits of a run, in order. *)
Fixpoint submitClocks (tr : list (Z * Event)) : list Z :=
  match tr with
  | [] => []
  | (_, Submit _ now) :: tr' => now :: submitClocks tr'
  | _ :: tr' => submitClocks tr'
  end.

(** What holds of the page at all times: the page number and size are as
    the data model has them; ids (and the id being edited) are texts of
    clock readings; at most one timer is pending, the one [debounceTimer]
    names. *)
Definition wellFormed (w : World) : Prop :=
  1 ≤ currentPage (mgr w) ∧ itemsPerPage (mgr w) = 6 ∧
  Forall (λ i, ∃ z, i = JS.toString z) (ids w) ∧
  (∀ i, editingId (mgr w) = Some i → ∃ z, i = JS.toString z) ∧
  (timers w = [] ∨
   ∃ h d, timers w = [(h, d)] ∧ debounceTimer (mgr w) = Some h).

(** A burst of keystrokes: each one less than 500 ms after the one
    before ([t] is the time of the one before the first of [ks]). *)
Fixpoint quiet (t : Z) (ks : list (Z * string)) : Prop :=
  match ks with
  | [] => True
  | (t', _) :: ks' => t ≤ t' < t + 500 ∧ quiet t' ks'
  end.

Definition keystrokes (ks : list (Z * string)) : list (Z * Event) :=
  (λ k, (k.1, Search k.2)) <$> ks.

(** The keystrokes of a run, in order. *)
Fixpoint searches (tr : list (Z * Event)) : list (Z * string) :=
  match tr with
  | [] => []
  | (t, Search term) :: tr' => (t, term) :: searches tr'
  | _ :: tr' => searches tr'
  end.

(** A run in which nothing happens but keystrokes in the search box and
    timers firing. *)
Definition debounceOnly (tr : list (Z * Event)) : Prop :=
  Forall (λ x, match x.2 with Search _ | Fire _ => True | _ => False end) tr.


(** The last keystroke of a burst that starts with [k]. *)
Definition lastKey (k : Z * string) (ks : list (Z * string)) : Z * string :=
  List.last ks k.

(** The frame the search callback draws for the term typed last: the
    state as it was, with that term (lower case, trimmed) and page 1. *)
Definition searchFrame (term : string) (m : ProductManager) : Frame :=
  let m' := set_currentPage 1 (set_searchTerm (JS.trim (JS.toLowerCase term)) m) in
  {| fr_view := currentView m; fr_current := 1;
     fr_term := JS.trim (JS.toLowerCase term);
     fr_page := getPaginatedProducts m' |}.

(** The state between a keystroke and the firing of its timer. *)
Definition pending (m0 : ProductManager) (F : list Frame) (k : Z * string)
    (h : Handle) (w : World) : Prop :=
  mgr w = set_debounceTimer (Some h) (set_searchTerm (JS.trim (JS.toLowerCase k.2)) m0) ∧
  timers w = [(h, k.1 + 500)] ∧ frames w = F.


(** ** Sample data *)

Definition widget : Draft :=
  {| d_name := "Widget"; d_price := "9.99"; d_category := "Electronics";
     d_stock := "3"; d_description := "" |}.

(** Seven products added one second apart, from 1700000001000 on. *)
Definition sevenAdds : list (Z * Event) :=
  (λ n, (1000 * n, Submit widget (1700000000000 + 1000 * n))) <$> [1; 2; 3; 4; 5; 6; 7].

Definition after (tr : list (Z * Event)) : World :=
  default initial (run 0 tr initial).


(** ** What is drawn *)

(** [Math.floor] of a quotient, [Math.max] and [Math.min] on integers. *)
Definition Math_floor (q : Q) : Z := Qfloor q.
Definition Math_max (a b : Z) : Z := Z.max a b.
Definition Math_min (a b : Z) : Z := Z.min a b.

(** The pieces of the pagination bar: a button with its label, the page
    its [onclick] passes to [changePage], whether it carries the class
    [active] and whether it is [disabled]; or the three dots. *)
Inductive PagerItem :=
| PageButton (label : string) (target : Z) (active disabled : bool)
| Ellipsis.

(** [renderPagination(totalPages)]: nothing for a single page; otherwise
    Previous, a shortcut to page 1 when the window starts later, the window
    of at most five page numbers around the current page, a shortcut to the
    last page when the window ends earlier, and Next. *)
Definition renderPagination (totalPages : Z) (m : ProductManager) : list PagerItem :=
  if totalPages <=? 1 then []
  else
    let maxVisiblePages := 5 in
    let startPage :=
      Math_max 1 (currentPage m - Math_floor (inject_Z maxVisiblePages / inject_Z 2)) in
    let endPage := Math_min totalPages (startPage + maxVisiblePages - 1) in
    let startPage :=
      if endPage - startPage <? maxVisiblePages - 1
      then Math_max 1 (endPage - maxVisiblePages + 1)
      else startPage in
    [PageButton "Previous" (currentPage m - 1) false (currentPage m =? 1)] ++
    (if 1 <? startPage
     then PageButton "1" 1 false false :: (if 2 <? startPage then [Ellipsis] else [])
     else []) ++
    ((λ i, PageButton (JS.toString i) i (i =? currentPage m) false)
       <$> seqZ startPage (endPage - startPage + 1)) ++
    (if endPage <? totalPages
     then (if endPage <? totalPages - 1 then [Ellipsis] else []) ++
          [PageButton (JS.toString totalPages) totalPages false false]
     else []) ++
    [PageButton "Next" (currentPage m + 1) false (currentPage m =? totalPages)].

(** The content of the products container: the empty state with its two
    lines of text, the table with one row per product shown, or the grid
    with one card per product shown. *)
Inductive Markup :=
| EmptyState (title hint : string)
| ListTable (rows : list Product)
| CardGrid (cards : list Product).

Definition getEmptyStateHTML (m : ProductManager) : Markup :=
  let total := pg_total (getPaginatedProducts m) in
  if JS.truthy (searchTerm m) && (total =? 0)%nat
  then EmptyState "No products found" "Try adjusting your search term"
  else EmptyState "No products yet" "Add your first product using the form on the left".

Definition renderListView (shown : list Product) (m : ProductManager) : Markup :=
  if (length shown =? 0)%nat then getEmptyStateHTML m else ListTable shown.

Definition renderCardView (shown : list Product) (m : ProductManager) : Markup :=
  if (length shown =? 0)%nat then getEmptyStateHTML m else CardGrid shown.

(** What [renderProducts] leaves in the products container and in the
    pagination container. *)
Record Screen := {
  container : Markup;
  pagination : list PagerItem;
}.

Definition screen (m : ProductManager) : Screen :=
  let view := getPaginatedProducts m in
  if (pg_total view =? 0)%nat
  then {| container := getEmptyStateHTML m; pagination := [] |}
  else
    {| container :=
         match currentView m with
         | ListView => renderListView (pg_products view) m
         | CardView => renderCardView (pg_products view) m
         end;
       pagination := renderPagination (pg_totalPages view) m |}.

(** [escapeHtml(text)]: the text is put in an element and its markup read
    back, which writes the ampersand, the angle brackets and the
    non-breaking space as character references and every other code unit
    as it is. *)
Definition escapeChar (c : ascii) : string :=
  if decide (c = "&"%char) then "&amp;"
  else if decide (c = "<"%char) then "&lt;"
  else if decide (c = ">"%char) then "&gt;"
  else if decide (JS.code c = 160%N) then "&nbsp;"
  else String c "".

Fixpoint escapeHtml (text : string) : string :=
  match text with
  | EmptyString => ""
  | String c rest => escapeChar c +:+ escapeHtml rest
  end.

(** ** The theme *)

(** The [data-theme] attribute of the document and the [theme] entry of
    the local storage; [None] when absent. *)
Record Theme := {
  dataTheme : option string;
  savedTheme : option string;
}.

(** [value || fallback] on a string that may be [null]. *)
Definition orDefault (value : option string) (fallback : string) : string :=
  match value with
  | Some s => if JS.truthy s then s else fallback
  | None => fallback
  end.

Definition setTheme (theme : string) (e : Theme) : Theme :=
  {| dataTheme := Some theme; savedTheme := Some theme |}.

Definition initTheme (e : Theme) : Theme :=
  setTheme (orDefault (savedTheme e) "light") e.

Definition toggleTheme (e : Theme) : Theme :=
  let currentTheme := orDefault (dataTheme e) "light" in
  let newTheme := if decide (currentTheme = "light") then "dark" else "light" in
  setTheme newTheme e.

(** The page is loaded again: a fresh document, the same storage. *)
Definition reload (e : Theme) : Theme :=
  {| dataTheme := None; savedTheme := savedTheme e |}.

(** ** Notions the further properties are stated with *)

(** A string that does not start with white space. *)
Definition noLeadingSpace (s : string) : Prop :=
  match s with
  | EmptyString => True
  | String c _ => JS.isWhiteSpace c = false
  end.

(** The search term is in the form [handleSearch] stores: lower case, no
    white space around it. *)
Definition normalTerm (s : string) : Prop :=
  JS.toLowerCase s = s ∧ JS.trim s = s.

(** Strings made of white space only, and strings without any. *)
Fixpoint allSpace (s : string) : Prop :=
  match s with
  | EmptyString => True
  | String c r => JS.isWhiteSpace c = true ∧ allSpace r
  end.

Fixpoint noSpace (s : string) : Prop :=
  match s with
  | EmptyString => True
  | String c r => JS.isWhiteSpace c = false ∧ noSpace r
  end.

(** A draft the form accepts: name and category not blank, a price that
    reads as a number that is not negative, a stock that reads as an
    integer that is not negative. *)
Definition acceptable (d : Draft) : Prop :=
  JS.trim (d_name d) ≠ "" ∧ JS.trim (d_category d) ≠ "" ∧
  (JS.trim (d_price d) ≠ "" ∧
   JS.isNaN (JS.parseFloat (d_price d)) = false ∧
   JS.ltZero (JS.parseFloat (d_price d)) = false) ∧
  (JS.trim (d_stock d) ≠ "" ∧
   JS.isNaN (JS.parseInt (d_stock d)) = false ∧
   JS.ltZero (JS.parseInt (d_stock d)) = false).

(** A product as the form stores it. *)
Definition storable (p : Product) : Prop :=
  (∃ z, id p = JS.toString z) ∧
  name p ≠ "" ∧ JS.trim (name p) = name p ∧
  JS.trim (category p) ≠ "" ∧
  JS.isNaN (price p) = false ∧ JS.ltZero (price p) = false ∧
  JS.isNaN (stock p) = false ∧ JS.ltZero (stock p) = false ∧
  JS.trim (description p) = description p ∧
  image p = dummyImage.

(** Two controllers that show the same: same collection, view mode, page,
    page size and search term (they may differ in the edit in progress and
    in the timer handle). *)
Definition sameView (m m' : ProductManager) : Prop :=
  products m' = products m ∧ currentView m' = currentView m ∧
  currentPage m' = currentPage m ∧ itemsPerPage m' = itemsPerPage m ∧
  searchTerm m' = searchTerm m.

(** The frame drawn last shows the state as it is, except that a search
    term typed since is not applied while its timer is pending. *)
Definition upToDate (w : World) : Prop :=
  ∃ f, last (frames w) = Some f ∧
       fr_view f = currentView (mgr w) ∧
       fr_current f = currentPage (mgr w) ∧
       fr_page f = getPaginatedProducts (set_searchTerm (fr_term f) (mgr w)) ∧
       (fr_term f = searchTerm (mgr w) ∨ timers w ≠ []).

(** The code unit [c] occurs in [s]. *)
Fixpoint occurs (c : ascii) (s : string) : Prop :=
  match s with
  | EmptyString => False
  | String a r => a = c ∨ occurs c r
  end.

(** The double quote and the non-breaking space. *)
Definition quote : ascii := "034"%char.
Definition nbsp : ascii := "160"%char.


(** ** More sample data *)


(** * Properties *)

(** ** The primitives on sample inputs *)

Example toLowerCase_ex : JS.toLowerCase "Widget 42" = "widget 42".
Proof. reflexivity. Qed.

Example trim_ex : JS.trim "  a b 	" = "a b".
Proof. reflexivity. Qed.

Example parseFloat_ex :
  JS.parseFloat "-5" = JS.Num true 5 0 ∧
  JS.parseFloat " 12.50abc" = JS.Num false 1250 (-2) ∧
  JS.parseFloat ".5e3" = JS.Num false 5 2 ∧
  JS.parseFloat "1e" = JS.Num false 1 0 ∧
  JS.parseFloat "abc" = JS.NaN ∧
  JS.parseFloat "." = JS.NaN ∧
  JS.parseFloat "-Infinity" = JS.Infinity true.
Proof. repeat split. Qed.

Example parseInt_ex :
  JS.parseInt "-5" = JS.Num true 5 0 ∧
  JS.parseInt "12.7" = JS.Num false 12 0 ∧
  JS.parseInt "0x1F" = JS.Num false 31 0 ∧
  JS.parseInt "" = JS.NaN ∧
  JS.parseInt "x" = JS.NaN.
Proof. repeat split. Qed.

Example slice_ex :
  JS.slice [1;2;3;4;5;6;7] 6 12 = [7] ∧
  JS.slice [1;2;3;4;5;6;7] 12 18 = [] ∧
  JS.slice [1;2;3;4;5;6;7] (-3) (-1) = [5;6].
Proof. repeat split. Qed.

Example toString_ex : JS.toString 1700000000000 = "1700000000000".
Proof. reflexivity. Qed.


(** ** Strings: lower case, trimming and substrings *)

Section Strings.

Implicit Types s t u : string.

Lemma append_nil_l s : "" +:+ s = s.
Proof. reflexivity. Qed.

Lemma append_cons a s t : String a s +:+ t = String a (s +:+ t).
Proof. reflexivity. Qed.

Lemma append_nil_r s : s +:+ "" = s.
Proof. induction s as [|a s IH]; [done|]. by rewrite append_cons, IH. Qed.

Lemma append_assoc s t u : (s +:+ t) +:+ u = s +:+ t +:+ u.
Proof. induction s as [|a s IH]; [done|]. by rewrite !append_cons, IH. Qed.

Lemma toLowerCase_append s t :
  JS.toLowerCase (s +:+ t) = JS.toLowerCase s +:+ JS.toLowerCase t.
Proof.
  induction s as [|a s IH]; [done|].
  rewrite append_cons. simpl. by rewrite IH.
Qed.

(** A split of the lower-cased string is the image of a split of the
    string itself: lower-casing works one code unit at a time. *)
Lemma toLowerCase_split s x y :
  JS.toLowerCase s = x +:+ y →
  ∃ a b, s = a +:+ b ∧ JS.toLowerCase a = x ∧ JS.toLowerCase b = y.
Proof.
  revert s. induction x as [|c x IH]; intros s H.
  - exists "", s. by rewrite !append_nil_l in *.
  - destruct s as [|c' s]; [done|].
    rewrite append_cons in H. simpl in H. injection H as Hc Hs.
    destruct (IH _ Hs) as (a & b & -> & Ha & Hb).
    exists (String c' a), b. rewrite append_cons. simpl.
    by rewrite Hc, Ha.
Qed.

Lemma toLowerCase_empty s : JS.toLowerCase s = "" ↔ s = "".
Proof. by destruct s. Qed.

Lemma isWhiteSpace_lowerChar c :
  JS.isWhiteSpace (JS.lowerChar c) = JS.isWhiteSpace c.
Proof. by destruct c as [[] [] [] [] [] [] [] []]. Qed.

Lemma lowerChar_idemp c : JS.lowerChar (JS.lowerChar c) = JS.lowerChar c.
Proof. by destruct c as [[] [] [] [] [] [] [] []]. Qed.

Lemma toLowerCase_idemp s :
  JS.toLowerCase (JS.toLowerCase s) = JS.toLowerCase s.
Proof.
  induction s as [|c s IH]; [done|]. simpl. by rewrite lowerChar_idemp, IH.
Qed.

Lemma trimStart_toLowerCase s :
  JS.trimStart (JS.toLowerCase s) = JS.toLowerCase (JS.trimStart s).
Proof.
  induction s as [|c s IH]; [done|]. simpl.
  rewrite isWhiteSpace_lowerChar. by destruct (JS.isWhiteSpace c).
Qed.

Lemma trimEnd_toLowerCase s :
  JS.trimEnd (JS.toLowerCase s) = JS.toLowerCase (JS.trimEnd s).
Proof.
  induction s as [|c s IH]; [done|]. simpl.
  rewrite IH, isWhiteSpace_lowerChar.
  destruct (JS.trimEnd s); simpl; [by destruct (JS.isWhiteSpace c)|done].
Qed.

(** Lower-casing and trimming commute: the order [handleSearch] applies
    them in does not matter. *)
Lemma trim_toLowerCase s :
  JS.trim (JS.toLowerCase s) = JS.toLowerCase (JS.trim s).
Proof.
  unfold JS.trim. by rewrite trimStart_toLowerCase, trimEnd_toLowerCase.
Qed.

Lemma startsWith_spec s t :
  JS.startsWith s t = true ↔ ∃ post, s = t +:+ post.
Proof.
  revert s. induction t as [|b t IH]; intros s; simpl.
  - split; [|done]. intros _. by exists s.
  - destruct s as [|a s].
    + split; [done|]. by intros [post ?].
    + case_decide as Hab.
      * subst b. rewrite IH. split.
        -- intros [post ->]. by exists post.
        -- intros [post H]. rewrite append_cons in H.
           injection H as ->. by exists post.
      * split; [done|]. intros [post H]. rewrite append_cons in H.
        by injection H as ? _.
Qed.

Lemma includes_spec s t :
  JS.includes s t = true ↔ ∃ pre post, s = pre +:+ t +:+ post.
Proof.
  induction s as [|a s IH]; simpl.
  - rewrite orb_false_r, startsWith_spec. split.
    + intros [post ->]. by exists "", post.
    + intros (pre & post & H). destruct pre; [|done].
      rewrite append_nil_l in H. by exists post.
  - rewrite orb_true_iff, startsWith_spec, IH. split.
    + intros [[post ->]|(pre & post & ->)].
      * by exists "", post.
      * by exists (String a pre), post.
    + intros (pre & post & H). destruct pre as [|c pre].
      * left. by exists post.
      * right. rewrite append_cons in H. injection H as _ ->.
        by exists pre, post.
Qed.

End Strings.

(** ** The filter step *)

Lemma includes_ignoreCase s t :
  JS.includes (JS.toLowerCase s) (JS.toLowerCase t) = true ↔ containsIgnoreCase s t.
Proof.
  rewrite includes_spec. split.
  - intros (pre & post & H).
    apply toLowerCase_split in H as (a & b & -> & _ & H).
    apply toLowerCase_split in H as (u & c & -> & Hu & _).
    by exists a, u, c.
  - intros (pre & u & post & -> & Hu).
    exists (JS.toLowerCase pre), (JS.toLowerCase post).
    by rewrite !toLowerCase_append, Hu.
Qed.

Global Instance containsIgnoreCase_dec s t : Decision (containsIgnoreCase s t).
Proof.
  destruct (JS.includes (JS.toLowerCase s) (JS.toLowerCase t)) eqn:E.
  - left. by apply includes_ignoreCase.
  - right. rewrite <- includes_ignoreCase. by rewrite E.
Defined.

Lemma truthy_empty s : JS.truthy s = false ↔ s = "".
Proof. by destruct s. Qed.

Lemma searchTerm_handleSearch t term w :
  searchTerm (mgr (handleSearch t term w)) = JS.trim (JS.toLowerCase term).
Proof. unfold handleSearch. simpl. by destruct (debounceTimer (mgr w)). Qed.

Lemma products_handleSearch t term w :
  products (mgr (handleSearch t term w)) = products (mgr w).
Proof. unfold handleSearch. simpl. by destruct (debounceTimer (mgr w)). Qed.

(** C5. Once a search term has been entered, the filter step returns the
    whole collection when the trimmed term is empty, and otherwise exactly
    the products (in collection order) whose name contains the trimmed term
    as a substring up to case. A product named Widget is kept for the terms
    widget, WID and dget. *)
Theorem filter_case_insensitive_substring :
  (∀ t term w,
     let m := mgr (handleSearch t term w) in
     (JS.trim term = "" → getFilteredProducts m = products (mgr w)) ∧
     (JS.trim term ≠ "" →
      getFilteredProducts m =
      filter (λ p, containsIgnoreCase (name p) (JS.trim term)) (products (mgr w)))) ∧
  (∀ t term w p,
     name p = "Widget" → term ∈ ["widget"; "WID"; "dget"] →
     p ∈ products (mgr w) →
     p ∈ getFilteredProducts (mgr (handleSearch t term w))).
Proof.
  assert (G : ∀ t term w,
     let m := mgr (handleSearch t term w) in
     (JS.trim term = "" → getFilteredProducts m = products (mgr w)) ∧
     (JS.trim term ≠ "" →
      getFilteredProducts m =
      filter (λ p, containsIgnoreCase (name p) (JS.trim term)) (products (mgr w)))).
  { intros t term w m. unfold getFilteredProducts. subst m.
    rewrite searchTerm_handleSearch, products_handleSearch, trim_toLowerCase.
    split; intros H.
    - by rewrite H.
    - destruct (JS.truthy (JS.toLowerCase (JS.trim term))) eqn:E.
      + simpl. apply list_filter_iff. intros p. apply includes_ignoreCase.
      + exfalso. apply H. by apply toLowerCase_empty, truthy_empty. }
  split; [exact G|].
  intros t term w p Hname Hterm Hp.
  assert (JS.trim term ≠ "" ∧ containsIgnoreCase (name p) (JS.trim term)) as [Hne Hc].
  { rewrite Hname.
    repeat (apply elem_of_cons in Hterm as [->|Hterm]);
      [| | |by apply elem_of_nil in Hterm];
      (split; [vm_compute; congruence|]); apply includes_ignoreCase; reflexivity. }
  destruct (G t term w) as [_ HG]. rewrite (HG Hne).
  by apply list_elem_of_filter.
Qed.

Lemma filter_case_insensitive_substring_witness :
  let w := after sevenAdds in
  getFilteredProducts (mgr (handleSearch 9000 "  " w)) = products (mgr w) ∧
  getFilteredProducts (mgr (handleSearch 9000 " WID " w)) = products (mgr w).
Proof.
  intros w. destruct filter_case_insensitive_substring as [H _]. split.
  - destruct (H 9000 "  " w) as [H0 _]. apply H0. reflexivity.
  - destruct (H 9000 " WID " w) as [_ H1]. rewrite H1.
    + vm_compute. reflexivity.
    + vm_compute. congruence.
Defined.

(** ** Pagination *)

Section Pagination.

(** [Math.ceil(n / d)] for a positive divisor is the least [c] with
    [n <= c * d]. *)
Lemma Math_ceil_quotient (n d : Z) :
  0 < d →
  let c := JS.Math_ceil (inject_Z n / inject_Z d) in
  (c - 1) * d < n ≤ c * d.
Proof.
  intros Hd. destruct d as [|p|p]; [lia| |lia].
  assert (E : (inject_Z n / inject_Z (Z.pos p) == n # p)%Q).
  { unfold Qeq, Qdiv, Qmult, Qinv, inject_Z. simpl. lia. }
  unfold JS.Math_ceil. rewrite (Qceiling_comp _ _ E).
  unfold Qceiling, Qfloor, Qopp. simpl.
  pose proof (Z.div_mod (- n) (Z.pos p) ltac:(lia)).
  pose proof (Z.mod_pos_bound (- n) (Z.pos p) ltac:(lia)).
  nia.
Qed.

Lemma slice_lookup {A} (l : list A) (start stop : Z) (i : nat) :
  0 ≤ start → start ≤ stop →
  JS.slice l start stop !! i =
  if decide (start + Z.of_nat i < stop) then l !! (Z.to_nat start + i)%nat else None.
Proof.
  intros Hs Hst. unfold JS.slice, JS.relIndex.
  destruct (Z.ltb_spec start 0); [lia|].
  destruct (Z.ltb_spec stop 0); [lia|].
  set (len := Z.of_nat (length l)).
  assert (Hlen : len = Z.of_nat (length l)) by done. clearbody len.
  case_decide as Hi.
  - destruct (decide (start + Z.of_nat i < len)).
    + rewrite lookup_take_lt by lia. rewrite lookup_drop. f_equal. lia.
    + rewrite lookup_take_ge by lia. symmetry. apply lookup_ge_None. lia.
  - rewrite lookup_take_ge by lia. done.
Qed.

Lemma slice_length {A} (l : list A) (start stop : Z) :
  0 ≤ start → start ≤ stop →
  Z.of_nat (length (JS.slice l start stop)) =
  Z.min stop (Z.of_nat (length l)) - Z.min start (Z.of_nat (length l)).
Proof.
  intros Hs Hst. unfold JS.slice, JS.relIndex.
  destruct (Z.ltb_spec start 0); [lia|].
  destruct (Z.ltb_spec stop 0); [lia|].
  rewrite length_take, length_drop. lia.
Qed.

End Pagination.

(** The ceiling bounds and the size of the visible slice. *)
Lemma pagination_bounds m :
  paged m →
  let view := getPaginatedProducts m in
  let count := Z.of_nat (length (getFilteredProducts m)) in
  (pg_totalPages view - 1) * itemsPerPage m < count ≤ pg_totalPages view * itemsPerPage m ∧
  Z.of_nat (length (pg_products view)) =
  Z.min (currentPage m * itemsPerPage m) count
  - Z.min ((currentPage m - 1) * itemsPerPage m) count.
Proof.
  intros [Hp Hi] view count. split.
  - apply (Math_ceil_quotient count (itemsPerPage m) Hi).
  - unfold view, getPaginatedProducts. cbn [pg_products].
    rewrite slice_length by nia. fold count. f_equal. f_equal. lia.
Qed.

(** C3. For a collection and session state with a page number of at least
    one and a positive page size: the total is the size of the filtered
    set; totalPages is the ceiling of total / itemsPerPage, that is the
    least number of pages of that size holding them all, and zero when
    nothing is left; the visible slice holds, in order, the filtered
    products at the indices from (page-1)*itemsPerPage up to, not
    including, page*itemsPerPage. With 7 products, no search term and 6
    items per page there are 2 pages and page 2 shows exactly 1 product. *)
Theorem derived_view_pagination (m : ProductManager) :
  paged m →
  let filtered := getFilteredProducts m in
  let view := getPaginatedProducts m in
  let count := Z.of_nat (length filtered) in
  pg_total view = length filtered ∧
  (pg_totalPages view - 1) * itemsPerPage m < count ≤ pg_totalPages view * itemsPerPage m ∧
  (count = 0 → pg_totalPages view = 0) ∧
  (∀ i : nat,
     pg_products view !! i =
     if decide (Z.of_nat i < itemsPerPage m)
     then filtered !! (Z.to_nat ((currentPage m - 1) * itemsPerPage m) + i)%nat
     else None) ∧
  (length (products m) = 7%nat → searchTerm m = "" → itemsPerPage m = 6 →
   pg_totalPages view = 2 ∧ (currentPage m = 2 → length (pg_products view) = 1%nat)).
Proof.
  intros [Hp Hi] filtered view count.
  pose proof (Math_ceil_quotient count (itemsPerPage m) Hi) as Hc.
  cbv zeta in Hc.
  change (JS.Math_ceil _) with (pg_totalPages view) in Hc.
  split_and!.
  - done.
  - lia.
  - lia.
  - nia.
  - intros i. unfold view, getPaginatedProducts. cbn [pg_products].
    rewrite slice_lookup by nia.
    fold filtered. repeat case_decide; try done; lia.
  - intros H7 Hterm H6.
    assert (Hf : filtered = products m).
    { unfold filtered, getFilteredProducts. by rewrite Hterm. }
    assert (count = 7) by (unfold count; rewrite Hf, H7; done).
    split; [nia|]. intros H2.
    apply Nat2Z.inj. unfold view, getPaginatedProducts. cbn [pg_products].
    fold filtered. rewrite slice_length by lia. fold count. lia.
Qed.

Lemma derived_view_pagination_witness :
  let m := mgr (after (sevenAdds ++ [(8000, ChangePage 2)])) in
  pg_totalPages (getPaginatedProducts m) = 2 ∧
  length (pg_products (getPaginatedProducts m)) = 1%nat.
Proof.
  intros m. destruct (derived_view_pagination m) as (_ & _ & _ & _ & H).
  - split; vm_compute; congruence.
  - destruct H as [H2 H1]; [vm_compute; reflexivity..|].
    split; [exact H2|]. apply H1. vm_compute. reflexivity.
Defined.

(** ** Changing the page *)

Lemma mgr_renderProducts w : mgr (renderProducts w) = mgr w.
Proof. reflexivity. Qed.

Lemma frames_renderProducts w :
  frames (renderProducts w) =
  frames w ++ [{| fr_view := currentView (mgr w); fr_current := currentPage (mgr w);
                  fr_term := searchTerm (mgr w);
                  fr_page := getPaginatedProducts (mgr w) |}].
Proof. reflexivity. Qed.

(** C4. [changePage(n)] makes [n] the current page, and changes nothing
    else in the controller, when [n] lies between 1 and the number of pages
    of the current filtered set; for any other [n] it leaves the whole
    state as it is. *)
Theorem changePage_in_range_only (w : World) (n : Z) :
  let totalPages := pg_totalPages (getPaginatedProducts (mgr w)) in
  (1 ≤ n ≤ totalPages →
   currentPage (mgr (changePage n w)) = n ∧
   mgr (changePage n w) = set_currentPage n (mgr w)) ∧
  (n < 1 ∨ totalPages < n → changePage n w = w).
Proof.
  intros totalPages. unfold changePage. fold totalPages. split.
  - intros [H1 H2].
    destruct (Z.leb_spec 1 n); [|lia].
    destruct (Z.leb_spec n totalPages); [|lia]. done.
  - intros H.
    destruct (Z.leb_spec 1 n); [|done].
    destruct (Z.leb_spec n totalPages); [lia|done].
Qed.

Lemma changePage_in_range_only_witness :
  let w := after sevenAdds in
  currentPage (mgr (changePage 2 w)) = 2 ∧ changePage 3 w = w.
Proof.
  intros w.
  destruct (changePage_in_range_only w 2) as [[H _] _]; [by vm_compute|].
  destruct (changePage_in_range_only w 3) as [_ H']. split; [exact H|].
  apply H'. right. by vm_compute.
Defined.

(** ** Delete and update leave the session alone *)

Lemma mgr_updateProduct p w :
  mgr (updateProduct p w) = mgr w ∨
  ∃ index x, products (mgr w) !! index = Some x ∧ id x = id p ∧
    mgr (updateProduct p w) = set_products (<[index := p]> (products (mgr w))) (mgr w).
Proof.
  unfold updateProduct.
  destruct (list_find _ _) as [[index x]|] eqn:E; [|by left].
  apply list_find_Some in E as (Hx & Hid & _). right. by exists index, x.
Qed.

Lemma mgr_deleteProduct i c w :
  mgr (deleteProduct i c w) =
  if c then set_products (filter (λ p, id p ≠ i) (products (mgr w))) (mgr w) else mgr w.
Proof. by destruct c. Qed.

(** Past the last page the visible slice is empty. *)
Lemma beyond_last_page_empty m :
  paged m →
  pg_totalPages (getPaginatedProducts m) < currentPage m →
  pg_products (getPaginatedProducts m) = [].
Proof.
  intros Hp Hlt. destruct (pagination_bounds m Hp) as (Hc & Hl).
  apply nil_length_inv, Nat2Z.inj. rewrite Hl.
  destruct Hp as [Hp Hi]. nia.
Qed.

(** C10. [deleteProduct] and [updateProduct] leave the current page, the
    search term and the view mode as they are. A delete that shrinks the
    filtered set can therefore leave the current page beyond the last
    page (as in the page of seven products shown on page 2, one of which is
    deleted), and whenever the current page is beyond the last one the
    visible slice is empty. *)
Theorem delete_update_keep_session :
  (∀ w i c,
     let m' := mgr (deleteProduct i c w) in
     currentPage m' = currentPage (mgr w) ∧ searchTerm m' = searchTerm (mgr w) ∧
     currentView m' = currentView (mgr w)) ∧
  (∀ w p,
     let m' := mgr (updateProduct p w) in
     currentPage m' = currentPage (mgr w) ∧ searchTerm m' = searchTerm (mgr w) ∧
     currentView m' = currentView (mgr w)) ∧
  (∀ m, paged m → pg_totalPages (getPaginatedProducts m) < currentPage m →
        pg_products (getPaginatedProducts m) = []) ∧
  (let w := after (sevenAdds ++ [(8000, ChangePage 2)]) in
   let w' := deleteProduct "1700000007000" true w in
   reachable w ∧
   currentPage (mgr w) = 2 ∧ pg_totalPages (getPaginatedProducts (mgr w)) = 2 ∧
   length (pg_products (getPaginatedProducts (mgr w))) = 1%nat ∧
   currentPage (mgr w') = 2 ∧ pg_totalPages (getPaginatedProducts (mgr w')) = 1 ∧
   pg_products (getPaginatedProducts (mgr w')) = [] ∧
   (fr_page <$> last (frames w')) = Some (getPaginatedProducts (mgr w'))).
Proof.
  split_and!.
  - intros w i c m'. subst m'. rewrite mgr_deleteProduct. by destruct c.
  - intros w p m'. subst m'.
    destruct (mgr_updateProduct p w) as [->|(index & x & _ & _ & ->)]; done.
  - apply beyond_last_page_empty.
  - intros w w'. split; [|split_and!; vm_compute; reflexivity].
    exists 0, (sevenAdds ++ [(8000, ChangePage 2)]). vm_compute. reflexivity.
Qed.

Lemma delete_update_keep_session_witness :
  let w := after (sevenAdds ++ [(8000, ChangePage 2)]) in
  pg_products (getPaginatedProducts (mgr (deleteProduct "1700000007000" true w))) = [].
Proof.
  intros w.
  destruct delete_update_keep_session as (_ & _ & H & _).
  apply H; by vm_compute.
Defined.

(** ** Validation touches nothing but the error texts *)

Section Validation.

Lemma sameController_refl w : sameController w w.
Proof. by repeat split. Qed.

Lemma sameController_trans w1 w2 w3 :
  sameController w1 w2 → sameController w2 w3 → sameController w1 w3.
Proof.
  intros (?&?&?&?) (?&?&?&?). repeat split; congruence.
Qed.

Lemma validateField_frame field w : sameController w (validateField field w).2.
Proof. unfold validateField. by destruct (checkField field). Qed.

Lemma validateField_verdict field w :
  (validateField field w).1 = (checkField field).1.
Proof. unfold validateField. by destruct (checkField field). Qed.

Lemma visit_all_frame fields acc :
  sameController acc.2 (foldl visitField acc fields).2.
Proof.
  revert acc. induction fields as [|f fields IH]; intros [v w]; simpl.
  - apply sameController_refl.
  - pose proof (validateField_frame f w) as Hf.
    destruct (validateField f w) as [ok w1]; simpl in *.
    eapply sameController_trans; [exact Hf|]. apply (IH (_, w1)).
Qed.

Lemma visit_all_verdict fields acc :
  (foldl visitField acc fields).1 = acc.1 && forallb (λ f, (checkField f).1) fields.
Proof.
  revert acc. induction fields as [|f fields IH]; intros [v w]; simpl.
  - by rewrite andb_true_r.
  - pose proof (validateField_verdict f w) as Hf.
    destruct (validateField f w) as [ok w1]; simpl in *.
    rewrite (IH (_, w1)). simpl. rewrite <- Hf.
    by destruct ok, v.
Qed.

Lemma validateForm_frame d w : sameController w (validateForm d w).2.
Proof. apply (visit_all_frame _ (true, w)). Qed.

(** The verdict of [validateForm]: every required control passes. *)
Lemma validateForm_verdict d w :
  (validateForm d w).1 =
  forallb (λ f, (checkField f).1) (filter (λ f, f_required f = true) (formControls d)).
Proof. apply (visit_all_verdict _ (true, w)). Qed.

Lemma handleFormSubmit_rejected d now w :
  (validateForm d w).1 = false → handleFormSubmit d now w = (validateForm d w).2.
Proof.
  intros H. unfold handleFormSubmit.
  destruct (validateForm d w) as [v w1]. simpl in H. by subst v.
Qed.

Lemma handleFormSubmit_accepted d now w :
  (validateForm d w).1 = true →
  handleFormSubmit d now w =
  let w1 := (validateForm d w).2 in
  let product := productData d now (mgr w) in
  resetForm (match editing (mgr w) with
             | Some _ => updateProduct product w1
             | None => addProduct product w1
             end).
Proof.
  intros H. unfold handleFormSubmit.
  pose proof (validateForm_frame d w) as (Hm & _).
  destruct (validateForm d w) as [v w1]. simpl in *. subst v. simpl.
  by rewrite Hm.
Qed.

(** A submit leaves the session (page, page size, search term, view,
    timers) alone; it may only end an edit. *)
Lemma session_handleFormSubmit d now w :
  let w' := handleFormSubmit d now w in
  currentPage (mgr w') = currentPage (mgr w) ∧
  itemsPerPage (mgr w') = itemsPerPage (mgr w) ∧
  searchTerm (mgr w') = searchTerm (mgr w) ∧
  currentView (mgr w') = currentView (mgr w) ∧
  debounceTimer (mgr w') = debounceTimer (mgr w) ∧
  timers w' = timers w ∧
  (editingId (mgr w') = editingId (mgr w) ∨ editingId (mgr w') = None).
Proof.
  intros w'. subst w'. pose proof (validateForm_frame d w) as (Hm & Ht & _).
  destruct (validateForm d w).1 eqn:Hv.
  - rewrite handleFormSubmit_accepted by done. cbv zeta.
    destruct (editing (mgr w)); [unfold updateProduct; destruct (list_find _ _) as [[??]|]|];
      simpl; rewrite ?Hm, ?Ht; split_and!; auto.
  - rewrite handleFormSubmit_rejected by done. rewrite Hm, Ht. split_and!; auto.
Qed.

End Validation.

(** ** Product ids *)

Section Ids.

Lemma Forall_sublist_alt {A} (P : A → Prop) (l1 l2 : list A) :
  Forall P l2 → sublist l1 l2 → Forall P l1.
Proof.
  rewrite !Forall_forall. intros H Hsub x Hx.
  apply H. by eapply elem_of_sublist.
Qed.

Lemma ids_addProduct p w : ids (addProduct p w) = ids w ++ [id p].
Proof. unfold ids, addProduct. simpl. by rewrite fmap_app. Qed.

Lemma ids_updateProduct p w : ids (updateProduct p w) = ids w.
Proof.
  unfold ids.
  destruct (mgr_updateProduct p w) as [->|(index & x & Hx & Hid & ->)]; [done|].
  simpl. rewrite list_fmap_insert. apply list_insert_id.
  by rewrite list_lookup_fmap, Hx, <- Hid.
Qed.

Lemma ids_deleteProduct i c w :
  ids (deleteProduct i c w) = if c then filter (λ j, j ≠ i) (ids w) else ids w.
Proof.
  unfold ids. rewrite mgr_deleteProduct. destruct c; [|done]. simpl.
  induction (products (mgr w)) as [|p ps IH]; [done|].
  rewrite fmap_cons, !filter_cons. rewrite <- IH.
  by destruct (decide (id p ≠ i)).
Qed.

Lemma ids_sameController w w' : sameController w w' → ids w' = ids w.
Proof. intros (Hm & _). unfold ids. by rewrite Hm. Qed.

Lemma ids_resetForm w : ids (resetForm w) = ids w.
Proof. reflexivity. Qed.

Lemma products_resetForm w : products (mgr (resetForm w)) = products (mgr w).
Proof. reflexivity. Qed.

Lemma products_updateProduct_found p w index x :
  list_find (λ q, id q = id p) (products (mgr w)) = Some (index, x) →
  products (mgr (updateProduct p w)) = <[index := p]> (products (mgr w)).
Proof. intros E. unfold updateProduct. by rewrite E. Qed.

Lemma id_productData d now m :
  id (productData d now m) = default (JS.toString now) (editing m).
Proof. reflexivity. Qed.

(** What a submit does to the ids: nothing (rejected, or an update), or
    the text of the clock reading appended (an add). *)
Lemma ids_handleFormSubmit d now w :
  (adds d w ∧ ids (handleFormSubmit d now w) = ids w ++ [JS.toString now]) ∨
  (¬ adds d w ∧ ids (handleFormSubmit d now w) = ids w).
Proof.
  pose proof (ids_sameController _ _ (validateForm_frame d w)) as Hids.
  destruct (validateForm d w).1 eqn:Hv.
  - rewrite handleFormSubmit_accepted by done. cbv zeta. rewrite ids_resetForm.
    destruct (editing (mgr w)) as [i|] eqn:He.
    + right. rewrite ids_updateProduct. split; [|done].
      intros [_ ?]. congruence.
    + left. rewrite ids_addProduct, id_productData, He. by rewrite Hids.
  - right. rewrite handleFormSubmit_rejected by done. split; [|done].
    intros [? _]. congruence.
Qed.

Lemma products_fireTimer t h w w' :
  fireTimer t h w = Some w' → products (mgr w') = products (mgr w).
Proof. unfold fireTimer. case_bool_decide; [|done]. by intros [= <-]. Qed.

Lemma products_changePage n w : products (mgr (changePage n w)) = products (mgr w).
Proof. unfold changePage. by destruct (_ && _). Qed.

Lemma products_editProduct i w : products (mgr (editProduct i w)) = products (mgr w).
Proof. unfold editProduct. by destruct (list_find _ _). Qed.

(** One event changes the ids by removing some of them, or by appending
    the text of the clock reading of a submit that adds. *)
Lemma ids_step t e w w' :
  step t e w = Some w' →
  sublist (ids w') (ids w) ∨
  ∃ d now, e = Submit d now ∧ adds d w ∧ ids w' = ids w ++ [JS.toString now].
Proof.
  destruct e as [d now|i confirmed|i| |field|fieldName|term|h|page|view];
    simpl; intros Hs; try injection Hs as <-.
  - destruct (ids_handleFormSubmit d now w) as [[Ha ->]|[_ ->]]; [|by left].
    right. by exists d, now.
  - left. rewrite ids_deleteProduct. destruct confirmed; [|done].
    apply sublist_filter.
  - left. unfold ids. by rewrite products_editProduct.
  - by left.
  - left. by rewrite (ids_sameController _ _ (validateField_frame field w)).
  - by left.
  - left. unfold ids. by rewrite products_handleSearch.
  - left. unfold ids. by rewrite (products_fireTimer _ _ _ _ Hs).
  - left. unfold ids. by rewrite products_changePage.
  - by left.
Qed.

(** Ids stay distinct along a run whose adds read fresh clocks. *)
Lemma NoDup_ids_run tr : ∀ t0 w w',
  NoDup (ids w) → freshAdds tr w → run t0 tr w = Some w' → NoDup (ids w').
Proof.
  induction tr as [|[t e] tr IH]; intros t0 w w' Hnd Hfresh Hrun; simpl in *.
  - by injection Hrun as <-.
  - destruct (t0 <=? t); [|done].
    destruct (step t e w) as [w1|] eqn:Hs; [|done]. simpl in Hrun.
    destruct Hfresh as [Hnow Hfresh].
    apply (IH t w1 w'); [|done..].
    destruct (ids_step _ _ _ _ Hs) as [Hsub|(d & now & -> & Ha & ->)].
    + by eapply sublist_NoDup.
    + apply NoDup_app. split_and!; [done| |apply NoDup_singleton].
      intros i Hi ->%list_elem_of_singleton. by apply Hnow.
Qed.

(** When every id is the text of a reading below [b], later and
    increasing readings are fresh. *)
Lemma freshAdds_increasing tr : ∀ w b,
  Forall (λ i, ∃ z, i = JS.toString z ∧ z < b) (ids w) →
  Forall (λ c, b ≤ c) (submitClocks tr) →
  StronglySorted Z.lt (submitClocks tr) →
  freshAdds tr w.
Proof.
  induction tr as [|[t e] tr IH]; intros w b Hids Hlb Hsorted; [done|].
  assert (Hother : ∀ w1, step t e w = Some w1 →
            (∀ d now, e ≠ Submit d now) →
            Forall (λ i, ∃ z, i = JS.toString z ∧ z < b) (ids w1)).
  { intros w1 Hs Hne. destruct (ids_step _ _ _ _ Hs) as [Hsub|(d & now & -> & _)].
    - by eapply Forall_sublist_alt.
    - by destruct (Hne d now). }
  destruct e as [d now|i confirmed|i| |field|fieldName|term|h|page|view];
    cbn [freshAdds submitClocks] in *.
  2-10: split; [done|]; destruct (step t _ w) as [w1|] eqn:Hs; [|done];
    apply (IH _ b); [|done..]; by apply Hother.
  apply Forall_cons in Hlb as [Hb Hlb].
  apply StronglySorted_inv in Hsorted as [Hsorted Hgt].
  split.
  - intros _ Hin. rewrite Forall_forall in Hids.
    destruct (Hids _ Hin) as (z & Hz & Hlt).
    apply (inj JS.toString) in Hz. lia.
  - simpl. apply (IH _ (now + 1)); [| |done].
    + destruct (ids_handleFormSubmit d now w) as [[_ ->]|[_ ->]].
      * apply Forall_app. split.
        -- eapply Forall_impl; [exact Hids|]. intros i (z & ? & ?).
           exists z. split; [done|lia].
        -- apply Forall_singleton. exists now. split; [done|lia].
      * eapply Forall_impl; [exact Hids|]. intros i (z & ? & ?).
        exists z. split; [done|lia].
    + eapply Forall_impl; [exact Hgt|]. simpl. lia.
Qed.

End Ids.

(** C1, as the code has it. Ids are the decimal text of [Date.now()] at the
    time of the add, and nothing compares them with the ids already there.
    Along every run from the empty collection in which each add reads a
    clock whose text is not yet an id of the collection, and so along every
    run in which the readings at successive submits strictly increase, the
    ids of the resulting collection are pairwise distinct; updates and
    deletes never create a duplicate. *)
Theorem ids_unique_when_clock_fresh (t0 : Z) (tr : list (Z * Event)) (w : World) :
  run t0 tr initial = Some w →
  freshAdds tr initial ∨ StronglySorted Z.lt (submitClocks tr) →
  NoDup (ids w).
Proof.
  intros Hrun Hclocks.
  apply (NoDup_ids_run tr t0 initial w); [apply NoDup_nil_2| |done].
  destruct Hclocks as [Hfresh|Hsorted]; [done|].
  destruct (submitClocks tr) as [|c cs] eqn:Hcs.
  - apply (freshAdds_increasing tr initial 0); rewrite ?Hcs; by constructor.
  - apply (freshAdds_increasing tr initial c); rewrite ?Hcs; [by constructor| |done].
    apply StronglySorted_inv in Hsorted as [_ Hgt].
    constructor; [lia|]. eapply Forall_impl; [exact Hgt|]. simpl. lia.
Qed.

Lemma ids_unique_when_clock_fresh_witness :
  NoDup (ids (after sevenAdds)).
Proof.
  apply (ids_unique_when_clock_fresh 0 sevenAdds); [by vm_compute|].
  right. vm_compute. repeat (constructor; [|by repeat constructor]). constructor.
Defined.

(** C1 as stated fails: two adds that read the same clock, the second one
    within the same millisecond as the first, leave two products with the
    same id. *)
Lemma ids_unique_counterexample :
  let tr := [(0, Submit widget 1700000000000); (0, Submit widget 1700000000000)] in
  run 0 tr initial = Some (after tr) ∧
  ids (after tr) = ["1700000000000"; "1700000000000"] ∧
  ¬ NoDup (ids (after tr)).
Proof.
  intros tr. split_and!; [by vm_compute..|].
  assert (E : ids (after tr) = ["1700000000000"; "1700000000000"]) by by vm_compute.
  rewrite E. intros Hnd. apply NoDup_cons in Hnd as [Hnotin _].
  apply Hnotin. by left.
Qed.

(** ** Add, then delete *)

Lemma filter_all {A} (P : A → Prop) `{∀ x, Decision (P x)} (l : list A) :
  Forall P l → filter P l = l.
Proof.
  induction 1 as [|x l Hx _ IH]; [done|].
  by rewrite filter_cons_True, IH.
Qed.

Lemma add_delete_fresh p w :
  id p ∉ ids w →
  products (mgr (deleteProduct (id p) true (addProduct p w))) = products (mgr w).
Proof.
  intros Hfresh. unfold deleteProduct, addProduct. simpl.
  rewrite filter_app, filter_cons_False, filter_nil, app_nil_r by (by intros ?).
  apply filter_all, Forall_forall. intros x Hx Heq.
  apply Hfresh. unfold ids. apply list_elem_of_fmap. by exists x.
Qed.

(** C8, as the code has it. When the id an add assigns is not yet in the
    collection, deleting that id right after the add gives back the
    collection as it was before the add: for [addProduct] on any product,
    and for a submit that adds, whose id is the text of the clock
    reading. *)
Theorem add_then_delete_restores :
  (∀ p w, id p ∉ ids w →
     products (mgr (deleteProduct (id p) true (addProduct p w))) = products (mgr w)) ∧
  (∀ d now w, adds d w → JS.toString now ∉ ids w →
     let w1 := handleFormSubmit d now w in
     ids w1 = ids w ++ [JS.toString now] ∧
     products (mgr (deleteProduct (JS.toString now) true w1)) = products (mgr w)).
Proof.
  split; [apply add_delete_fresh|].
  intros d now w [Hv He] Hfresh w1. subst w1.
  destruct (ids_handleFormSubmit d now w) as [[_ Hids]|[Hn _]]; [|by destruct Hn].
  split; [done|].
  rewrite handleFormSubmit_accepted by done. cbv zeta. rewrite He.
  pose proof (validateForm_frame d w) as Hsame.
  set (p := productData d now (mgr w)).
  assert (Hp : id p = JS.toString now) by (unfold p; by rewrite id_productData, He).
  rewrite <- Hp.
  change (products (mgr (deleteProduct (id p) true (resetForm ?x))))
    with (products (mgr (deleteProduct (id p) true x))).
  rewrite add_delete_fresh.
  - by destruct Hsame as [-> _].
  - by rewrite (ids_sameController _ _ Hsame), Hp.
Qed.

Lemma add_then_delete_restores_witness :
  let w := after sevenAdds in
  products (mgr (deleteProduct "1700000009000" true
                   (handleFormSubmit widget 1700000009000 w))) = products (mgr w).
Proof.
  intros w. destruct add_then_delete_restores as [_ H].
  apply (H widget 1700000009000 w).
  - by vm_compute.
  - vm_compute. intros Hin. repeat (apply elem_of_cons in Hin as [Hin|Hin]; [done|]).
    by apply elem_of_nil in Hin.
Defined.

(** C8 as stated fails: when the add reads the clock of an earlier add,
    deleting its id removes the earlier product as well. *)
Lemma add_then_delete_counterexample :
  let w := after [(0, Submit widget 1700000000000)] in
  let w1 := handleFormSubmit widget 1700000000000 w in
  reachable w ∧
  length (products (mgr w)) = 1%nat ∧
  ids w1 = ids w ++ ["1700000000000"] ∧
  products (mgr (deleteProduct "1700000000000" true w1)) = [] ∧
  products (mgr (deleteProduct "1700000000000" true w1)) ≠ products (mgr w).
Proof.
  intros w w1. split; [|split_and!; vm_compute; congruence].
  exists 0, [(0, Submit widget 1700000000000)]. vm_compute. reflexivity.
Qed.

(** ** Invariants of the running page *)

Section Invariants.

Lemma pretty_N_go_nonempty x s : s ≠ "" → pretty_N_go x s ≠ "".
Proof.
  revert s. induction (N.lt_wf_0 x) as [x _ IH]; intros s Hs.
  destruct (decide (x = 0)%N) as [->|Hx]; [by rewrite pretty_N_go_0|].
  rewrite pretty_N_go_step by lia. apply IH; [apply N.div_lt; lia|done].
Qed.

(** The text of a number is never empty, hence truthy. *)
Lemma toString_truthy z : JS.truthy (JS.toString z) = true.
Proof.
  assert (Hpos : ∀ p : positive, pretty p ≠ "").
  { intros p. unfold pretty, pretty_positive, pretty, pretty_N.
    case_decide; [done|]. rewrite pretty_N_go_step by lia.
    by apply pretty_N_go_nonempty. }
  unfold JS.toString, pretty, pretty_Z. destruct z as [|p|p]; [done| |done].
  specialize (Hpos p). by destruct (pretty p).
Qed.

Lemma clearTimeout_single h d w :
  timers w = [(h, d)] → timers (clearTimeout h w) = [].
Proof.
  intros E. unfold clearTimeout. simpl. rewrite E.
  by rewrite filter_cons_False, filter_nil by (simpl; auto).
Qed.

Lemma clearTimeout_none h w : timers w = [] → timers (clearTimeout h w) = [].
Proof. intros E. unfold clearTimeout. simpl. by rewrite E. Qed.

(** After [handleSearch] at time [t] exactly one timer is pending, the
    new one, due at [t + 500]. *)
Lemma timers_handleSearch t term w :
  wellFormed w →
  timers (handleSearch t term w) = [(nextHandle w, t + 500)] ∧
  debounceTimer (mgr (handleSearch t term w)) = Some (nextHandle w).
Proof.
  intros (_ & _ & _ & _ & Ht). unfold handleSearch. simpl.
  destruct Ht as [E|(h & d & E & Hd)].
  - destruct (debounceTimer (mgr w)); simpl; by rewrite ?E.
  - rewrite Hd. simpl. rewrite E.
    by rewrite filter_cons_False, filter_nil by (simpl; auto).
Qed.

(** A timer that fires was the pending one, and was due. *)
Lemma fireTimer_Some t h w w' :
  wellFormed w → fireTimer t h w = Some w' →
  ∃ d, timers w = [(h, d)] ∧ d ≤ t ∧
       w' = searchCallback (clearTimeout h w) ∧ timers w' = [].
Proof.
  intros (_ & _ & _ & _ & Ht). unfold fireTimer.
  case_bool_decide as Hex; [|done]. intros [= <-].
  destruct Ht as [E|(h' & d & E & _)].
  - rewrite E in Hex. by apply Exists_nil in Hex.
  - rewrite E in Hex. apply Exists_cons in Hex as [[Hh Hd]|Hex];
      [|by apply Exists_nil in Hex].
    simpl in *. subst h'. exists d. split_and!; [done..|].
    simpl. rewrite E. by rewrite filter_cons_False, filter_nil by (simpl; auto).
Qed.

Lemma wellFormed_sameController w w' :
  sameController w w' → wellFormed w → wellFormed w'.
Proof.
  intros (Hm & Ht & _ & _). unfold wellFormed, ids. by rewrite Hm, Ht.
Qed.

Lemma wellFormed_initial : wellFormed initial.
Proof.
  unfold wellFormed. simpl. split_and!; [lia|done|by constructor|done|by left].
Qed.

Lemma wellFormed_step t e w w' :
  wellFormed w → step t e w = Some w' → wellFormed w'.
Proof.
  intros Hw Hs. pose proof Hw as (Hp & Hi & Hids & He & Ht).
  assert (Hkeep : ∀ w1, sublist (ids w1) (ids w) →
            Forall (λ i, ∃ z, i = JS.toString z) (ids w1)).
  { intros w1 Hsub. by eapply Forall_sublist_alt. }
  destruct e as [d now|i confirmed|i| |field|fieldName|term|h|page|view];
    simpl in Hs; try injection Hs as <-.
  - (* Submit *)
    destruct (session_handleFormSubmit d now w) as (Hp' & Hi' & _ & _ & Hd' & Ht' & He').
    unfold wellFormed. rewrite Hp', Hi', Hd', Ht'. split_and!; [done..| | |done].
    + destruct (ids_handleFormSubmit d now w) as [[_ ->]|[_ ->]]; [|done].
      apply Forall_app. split; [done|]. apply Forall_singleton. by eexists.
    + intros j Hj. destruct He' as [He'|He']; rewrite He' in Hj; [by apply He|done].
  - (* Delete *)
    unfold wellFormed. rewrite ids_deleteProduct, mgr_deleteProduct.
    destruct confirmed; simpl; split_and!; try done.
    eapply Forall_sublist_alt; [exact Hids|apply sublist_filter].
  - (* Edit *)
    unfold editProduct. destruct (list_find _ _) as [[index x]|] eqn:E; [|done].
    apply list_find_Some in E as (Hx & Hid & _).
    unfold wellFormed; simpl. split_and!; try done.
    intros j [= <-]. rewrite Forall_forall in Hids. apply Hids.
    unfold ids. apply list_elem_of_fmap. exists x. split; [done|].
    by eapply list_elem_of_lookup_2.
  - (* CancelEdit *) unfold wellFormed; simpl. by split_and!.
  - (* Blur *) by eapply wellFormed_sameController; [apply validateField_frame|].
  - (* Input *) done.
  - (* Search *)
    destruct (timers_handleSearch t term w Hw) as [Htm Hdb].
    unfold wellFormed. rewrite Htm, Hdb. unfold ids.
    rewrite products_handleSearch.
    assert (Hsame : ∀ w0 : World,
      currentPage (mgr (handleSearch t term w0)) = currentPage (mgr w0) ∧
      itemsPerPage (mgr (handleSearch t term w0)) = itemsPerPage (mgr w0) ∧
      editingId (mgr (handleSearch t term w0)) = editingId (mgr w0)).
    { intros w0. unfold handleSearch. simpl. by destruct (debounceTimer (mgr w0)). }
    destruct (Hsame w) as (-> & -> & ->).
    split_and!; try done. right. by eexists _, _.
  - (* Fire *)
    destruct (fireTimer_Some _ _ _ _ Hw Hs) as (d & _ & _ & -> & Htm).
    unfold wellFormed. rewrite Htm. simpl. split_and!; try done. by left.
  - (* ChangePage *)
    unfold changePage. destruct (Z.leb_spec 1 page); simpl; [|done].
    destruct (page <=? _); [|done]. unfold wellFormed; simpl. by split_and!.
  - (* SwitchView *) unfold wellFormed; simpl. by split_and!.
Qed.

Lemma wellFormed_run tr : ∀ t0 w w',
  wellFormed w → run t0 tr w = Some w' → wellFormed w'.
Proof.
  induction tr as [|[t e] tr IH]; intros t0 w w' Hw Hrun; simpl in Hrun.
  - by injection Hrun as <-.
  - destruct (t0 <=? t); [|done].
    destruct (step t e w) as [w1|] eqn:Hs; [|done].
    eapply IH; [|exact Hrun]. by eapply wellFormed_step.
Qed.

Lemma reachable_wellFormed w : reachable w → wellFormed w.
Proof.
  intros (t0 & tr & Hrun). eapply wellFormed_run; [apply wellFormed_initial|done].
Qed.

Lemma reachable_paged w : reachable w → paged (mgr w).
Proof.
  intros (Hp & Hi & _)%reachable_wellFormed. split; [done|]. rewrite Hi. lia.
Qed.

End Invariants.

(** ** Rejected submits *)

(** C6. A submit is rejected as soon as one of the required controls
    (name, price, category, stock) fails its check, be it the required,
    the price or the stock check: the controller (collection and session
    state), the timers and the rendered frames are then exactly as before,
    only error texts change. A draft whose price is -5 fails on the price
    field, with the price message, and leaves the collection alone. *)
Theorem invalid_submit_changes_nothing :
  (∀ d now w,
     (∃ f, f ∈ formControls d ∧ f_required f = true ∧ (checkField f).1 = false) →
     sameController w (handleFormSubmit d now w)) ∧
  (∀ d now w,
     d_price d = "-5" →
     checkField {| f_name := "price"; f_value := d_price d; f_required := true |}
       = (false, "Price must be a valid positive number") ∧
     fieldErrors (handleFormSubmit d now w) "price"
       = "Price must be a valid positive number" ∧
     products (mgr (handleFormSubmit d now w)) = products (mgr w) ∧
     mgr (handleFormSubmit d now w) = mgr w).
Proof.
  assert (G : ∀ d w,
     (∃ f, f ∈ formControls d ∧ f_required f = true ∧ (checkField f).1 = false) →
     (validateForm d w).1 = false).
  { intros d w (f & Hf & Hreq & Hcheck).
    rewrite validateForm_verdict. apply not_true_is_false. intros Hall.
    rewrite forallb_forall in Hall.
    specialize (Hall f). rewrite Hcheck in Hall. apply diff_false_true, Hall.
    apply list_elem_of_In, list_elem_of_filter. done. }
  split.
  - intros d now w Hf. rewrite handleFormSubmit_rejected by by apply G.
    apply validateForm_frame.
  - intros d now w Hprice.
    set (f := {| f_name := "price"; f_value := d_price d; f_required := true |}).
    assert (Hc : checkField f = (false, "Price must be a valid positive number")).
    { unfold f. by rewrite Hprice. }
    assert (Hrej : (validateForm d w).1 = false).
    { apply G. exists f. rewrite Hc. split_and!; [|done..].
      unfold formControls, f. right. left. }
    rewrite handleFormSubmit_rejected by done.
    destruct (validateForm_frame d w) as (Hm & _).
    split_and!; [done| |by rewrite Hm|done].
    unfold validateForm, formControls. simpl. unfold visitField, validateField.
    rewrite Hprice.
    change (checkField {| f_name := "price"; f_value := "-5"; f_required := true |})
      with (false, "Price must be a valid positive number").
    repeat match goal with
           | |- context [checkField ?x] => destruct (checkField x); simpl
           end.
    reflexivity.
Qed.

Lemma invalid_submit_changes_nothing_witness :
  let d := {| d_name := "Widget"; d_price := "-5"; d_category := "Electronics";
              d_stock := "3"; d_description := "" |} in
  sameController (after sevenAdds) (handleFormSubmit d 1700000009000 (after sevenAdds)) ∧
  mgr (handleFormSubmit d 1700000009000 (after sevenAdds)) = mgr (after sevenAdds).
Proof.
  intros d. destruct invalid_submit_changes_nothing as [H1 H2]. split.
  - apply H1.
    exists {| f_name := "price"; f_value := "-5"; f_required := true |}.
    split_and!; [|reflexivity..]. vm_compute. right. left.
  - apply (H2 d). reflexivity.
Defined.

(** ** The edit session *)

(** C7. On the running page, [editProduct(id)] enters the edit of [id]
    when the collection has a product with that id, and does nothing at all
    otherwise. A submit that passes validation while [id] is being edited
    calls [updateProduct] with a product carrying that same id, no new id
    is made: the first product with that id is replaced where it stands,
    the ids of the collection stay as they are, and the session is back to
    creating ([editingId] is [null]). *)
Theorem edit_then_submit_updates_same_id (w : World) (i : string) :
  reachable w →
  (i ∉ ids w → editProduct i w = w) ∧
  (i ∈ ids w →
   let w1 := editProduct i w in
   mgr w1 = set_editingId (Some i) (mgr w) ∧ editing (mgr w1) = Some i ∧
   ∀ d now, (validateForm d w1).1 = true →
     let p := productData d now (mgr w1) in
     let w2 := handleFormSubmit d now w1 in
     id p = i ∧
     w2 = resetForm (updateProduct p (validateForm d w1).2) ∧
     (∃ index x, products (mgr w) !! index = Some x ∧ id x = i ∧
        (∀ j y, products (mgr w) !! j = Some y → (j < index)%nat → id y ≠ i) ∧
        products (mgr w2) = <[index := p]> (products (mgr w))) ∧
     ids w2 = ids w ∧
     editingId (mgr w2) = None).
Proof.
  intros Hreach. pose proof (reachable_wellFormed w Hreach) as (_ & _ & Hids & _).
  split.
  - intros Hnot. unfold editProduct.
    destruct (list_find _ _) as [[index x]|] eqn:E; [|done].
    apply list_find_Some in E as (Hx & Hid & _). destruct Hnot.
    unfold ids. apply list_elem_of_fmap. exists x. split; [done|].
    by eapply list_elem_of_lookup_2.
  - intros Hin w1.
    assert (Htruthy : JS.truthy i = true).
    { rewrite Forall_forall in Hids. destruct (Hids i Hin) as (z & ->).
      apply toString_truthy. }
    apply list_elem_of_fmap in Hin as (x0 & Hx0 & Hin).
    assert (Hw1 : mgr w1 = set_editingId (Some i) (mgr w)).
    { unfold w1, editProduct.
      destruct (list_find_elem_of (λ p, id p = i) _ x0 Hin) as [[index x] ->]; done. }
    assert (He : editing (mgr w1) = Some i).
    { rewrite Hw1. unfold editing. simpl. by rewrite Htruthy. }
    split_and!; [done..|].
    intros d now Hv p w2.
    assert (Hp : id p = i) by (unfold p; by rewrite id_productData, He).
    assert (Hw2 : w2 = resetForm (updateProduct p (validateForm d w1).2)).
    { unfold w2. rewrite handleFormSubmit_accepted by done. cbv zeta. by rewrite He. }
    pose proof (validateForm_frame d w1) as (Hm & _).
    split_and!; [done..| | |by rewrite Hw2].
    + rewrite Hw2, products_resetForm. clearbody p.
      assert (Hps : products (mgr (validateForm d w1).2) = products (mgr w))
        by by rewrite Hm, Hw1.
      destruct (list_find_elem_of (λ q, id q = id p)
                  (products (mgr (validateForm d w1).2)) x0) as [[index x] E];
        [by rewrite Hps|congruence|].
      rewrite (products_updateProduct_found _ _ _ _ E).
      apply list_find_Some in E as (Hx & Hid & Hleast). rewrite Hps in *.
      exists index, x. split_and!; [done|congruence| |done].
      intros j y Hy Hj Hyi. apply (Hleast j y Hy Hj). congruence.
    + rewrite Hw2, ids_resetForm, ids_updateProduct.
      rewrite (ids_sameController _ _ (validateForm_frame d w1)).
      unfold ids. by rewrite Hw1.
Qed.

Lemma edit_then_submit_updates_same_id_witness :
  let w := after sevenAdds in
  let w1 := editProduct "1700000003000" w in
  editing (mgr w1) = Some "1700000003000" ∧
  ids (handleFormSubmit widget 1700000009000 w1) = ids w.
Proof.
  intros w w1.
  assert (Hreach : reachable w) by (exists 0, sevenAdds; by vm_compute).
  destruct (edit_then_submit_updates_same_id w "1700000003000" Hreach) as [_ H].
  destruct H as (_ & He & H).
  { vm_compute. do 2 right. left. }
  split; [exact He|].
  destruct (H widget 1700000009000) as (_ & _ & _ & Hids & _); [by vm_compute|].
  exact Hids.
Defined.

(** ** Search resets the page *)

Lemma handleSearch_timers_last t term w :
  ∃ rest, timers (handleSearch t term w) = rest ++ [(nextHandle w, t + 500)].
Proof.
  unfold handleSearch. simpl. destruct (debounceTimer (mgr w)); simpl; by eexists.
Qed.

Lemma mgr_handleSearch t term w :
  mgr (handleSearch t term w) =
  set_debounceTimer (Some (nextHandle w))
    (set_searchTerm (JS.trim (JS.toLowerCase term)) (mgr w)).
Proof. unfold handleSearch. simpl. by destruct (debounceTimer (mgr w)). Qed.

Lemma frames_handleSearch t term w : frames (handleSearch t term w) = frames w.
Proof. unfold handleSearch. simpl. by destruct (debounceTimer (mgr w)). Qed.

Lemma fireTimer_page t h w w' :
  fireTimer t h w = Some w' →
  currentPage (mgr w') = 1 ∧ searchTerm (mgr w') = searchTerm (mgr w) ∧
  frames w' = frames w ++ [{| fr_view := currentView (mgr w); fr_current := 1;
                              fr_term := searchTerm (mgr w);
                              fr_page := getPaginatedProducts (set_currentPage 1 (mgr w)) |}].
Proof. unfold fireTimer. case_bool_decide; [|done]. by intros [= <-]. Qed.

(** Nothing but a keystroke or the timer itself touches the pending
    timers and the search term. *)
Lemma step_keeps_search t e w w' :
  match e with Search _ | Fire _ => False | _ => True end →
  step t e w = Some w' →
  timers w' = timers w ∧ searchTerm (mgr w') = searchTerm (mgr w).
Proof.
  destruct e as [d now|i confirmed|i| |field|fieldName|term|h|page|view];
    intros He Hs; try done; simpl in Hs; injection Hs as <-.
  - by destruct (session_handleFormSubmit d now w) as (_ & _ & ? & _ & _ & ? & _).
  - by destruct confirmed.
  - unfold editProduct. by destruct (list_find _ _).
  - done.
  - by destruct (validateField_frame field w) as (-> & -> & _).
  - done.
  - unfold changePage. by destruct (_ && _).
  - done.
Qed.





(** ** Debounce: only the last keystroke of a burst is applied *)

Section Debounce.

Lemma lastKey_cons k k' ks : lastKey k (k' :: ks) = lastKey k' ks.
Proof.
  unfold lastKey. revert k k'. induction ks as [|k'' ks IH]; intros k k'; [done|].
  change (List.last (k' :: k'' :: ks) k) with (List.last (k'' :: ks) k).
  by rewrite !IH.
Qed.

Lemma searches_keystrokes ks : searches (keystrokes ks) = ks.
Proof.
  induction ks as [|[t term] ks IH]; [done|]. simpl. by rewrite IH.
Qed.

Lemma debounceOnly_keystrokes ks : debounceOnly (keystrokes ks).
Proof. unfold debounceOnly, keystrokes. apply Forall_fmap, Forall_forall. done. Qed.

Lemma pending_handleSearch m0 F k h w t term :
  pending m0 F k h w →
  pending m0 F (t, term) (nextHandle w) (handleSearch t term w).
Proof.
  intros (Hm & Ht & Hf). unfold pending.
  rewrite mgr_handleSearch, frames_handleSearch, Hm. split_and!; [done| |done].
  unfold handleSearch. simpl. rewrite Hm. simpl. rewrite Ht.
  by rewrite filter_cons_False, filter_nil by (simpl; auto).
Qed.

Lemma pending_first w t term :
  wellFormed w →
  pending (mgr w) (frames w) (t, term) (nextHandle w) (handleSearch t term w).
Proof.
  intros Hw. destruct (timers_handleSearch t term w Hw) as [Ht _].
  unfold pending. by rewrite mgr_handleSearch, frames_handleSearch, Ht.
Qed.

(** The pending timer cannot fire early; once due it fires, draws the
    frame of the last term, and leaves no timer behind. *)
Lemma pending_fire m0 F k h w t h' :
  pending m0 F k h w →
  match fireTimer t h' w with
  | None => t < k.1 + 500 ∨ h' ≠ h
  | Some w' =>
      k.1 + 500 ≤ t ∧ h' = h ∧ timers w' = [] ∧
      frames w' = F ++ [searchFrame k.2 m0] ∧
      currentPage (mgr w') = 1 ∧ searchTerm (mgr w') = JS.trim (JS.toLowerCase k.2)
  end.
Proof.
  intros (Hm & Ht & Hf). unfold fireTimer. rewrite Ht.
  case_bool_decide as Hex.
  - apply Exists_cons in Hex as [[Hh Hd]|Hex]; [|by apply Exists_nil in Hex].
    simpl in Hh, Hd. subst h'. split_and!; [done..| | | |].
    + simpl. rewrite Ht. by rewrite filter_cons_False, filter_nil by (simpl; auto).
    + simpl. rewrite Hf, Hm. done.
    + done.
    + simpl. by rewrite Hm.
  - destruct (decide (h' = h)) as [->|]; [|by right].
    left. apply Z.lt_nge. intros Hle. apply Hex. left. done.
Qed.

(** With no timer pending, nothing can happen before the next
    keystroke. *)
Lemma run_idle tr t0 w w' :
  timers w = [] → debounceOnly tr →
  match searches tr with [] => True | k :: _ => k.1 < t0 end →
  run t0 tr w = Some w' →
  tr = [] ∧ w' = w.
Proof.
  intros Ht Honly Hnext Hrun. destruct tr as [|[t e] tr]; simpl in *.
  - by injection Hrun as <-.
  - apply Forall_cons in Honly as [He _]. simpl in He.
    destruct (Z.leb_spec t0 t); [|done].
    destruct e; try done; simpl in *.
    + lia.
    + unfold fireTimer in Hrun. rewrite Ht in Hrun.
      case_bool_decide as Hex; [by apply Exists_nil in Hex|done].
Qed.

(** Any run of keystrokes and timers from a pending state, with the
    keystrokes in one burst, ends with the timer of the last keystroke
    pending and nothing drawn, or with that timer fired and exactly its
    frame drawn. *)
Lemma run_pending tr : ∀ t0 w w' m0 F k h,
  pending m0 F k h w → k.1 ≤ t0 →
  debounceOnly tr → quiet k.1 (searches tr) →
  run t0 tr w = Some w' →
  let k' := lastKey k (searches tr) in
  (∃ h', pending m0 F k' h' w') ∨
  (frames w' = F ++ [searchFrame k'.2 m0] ∧ timers w' = [] ∧
   currentPage (mgr w') = 1 ∧ searchTerm (mgr w') = JS.trim (JS.toLowerCase k'.2)).
Proof.
  induction tr as [|[t e] tr IH]; intros t0 w w' m0 F k h Hp Hk Honly Hq Hrun.
  - injection Hrun as <-. left. by exists h.
  - apply Forall_cons in Honly as [He Honly]. simpl in He, Hrun.
    destruct (Z.leb_spec t0 t); [|done].
    destruct e as [| | | | | |term|h'| |]; try done; simpl in Hrun, Hq.
    + destruct Hq as [Ht Hq]. cbn [searches]. rewrite lastKey_cons.
      apply (IH t (handleSearch t term w) w' m0 F (t, term) (nextHandle w));
        [by eapply pending_handleSearch|simpl; lia|done..].
    + pose proof (pending_fire m0 F k h w t h' Hp) as Hfire.
      destruct (fireTimer t h' w) as [w1|]; [|done]. simpl in Hrun.
      destruct Hfire as (Hdue & -> & Ht1 & Hf1 & Hp1 & Hs1).
      apply run_idle in Hrun as [-> ->]; [|done..|].
      * right. by cbn.
      * destruct (searches tr) as [|[t' ?] ?]; [done|]. simpl in *. lia.
Qed.

(** A burst of keystrokes always runs, draws nothing, and leaves the
    timer of its last keystroke pending. *)
Lemma run_keystrokes ks : ∀ w m0 F k h,
  pending m0 F k h w → quiet k.1 ks →
  ∃ w' h', run k.1 (keystrokes ks) w = Some w' ∧ pending m0 F (lastKey k ks) h' w'.
Proof.
  induction ks as [|[t term] ks IH]; intros w m0 F k h Hp Hq.
  - exists w, h. done.
  - destruct Hq as [Ht Hq]. rewrite lastKey_cons.
    destruct (IH (handleSearch t term w) m0 F (t, term) (nextHandle w))
      as (w' & h' & Hrun & Hp'); [by eapply pending_handleSearch|done|].
    exists w', h'. split; [|done].
    change (keystrokes ((t, term) :: ks)) with ((t, Search term) :: keystrokes ks).
    simpl in Hrun |- *. destruct (Z.leb_spec k.1 t); [done|lia].
Qed.

End Debounce.

(** C9. Keystrokes each less than 500 ms after the one before: every
    keystroke clears the timer of the one before and starts its own. Hence,
    however the timers of the page are scheduled, a run of such a burst
    draws nothing until the timer of the last keystroke fires, and then
    draws one frame, for the term typed last (lower case, trimmed) on page
    1; no other timer is left. That timer cannot fire before 500 ms have
    passed since the last keystroke, and can fire at any time from then
    on. *)
Theorem debounce_last_search_only
    (w : World) (t1 : Z) (term1 : string) (ks : list (Z * string)) :
  wellFormed w → quiet t1 ks →
  let k := lastKey (t1, term1) ks in
  let shown := searchFrame k.2 (mgr w) in
  (∀ tr w', debounceOnly tr → searches tr = ks →
     run t1 ((t1, Search term1) :: tr) w = Some w' →
     (frames w' = frames w ∧ ∃ h, timers w' = [(h, k.1 + 500)]) ∨
     (frames w' = frames w ++ [shown] ∧ timers w' = [] ∧
      currentPage (mgr w') = 1 ∧ searchTerm (mgr w') = fr_term shown)) ∧
  (∃ w1 h,
     run t1 (keystrokes ((t1, term1) :: ks)) w = Some w1 ∧
     frames w1 = frames w ∧ timers w1 = [(h, k.1 + 500)] ∧
     (∀ t h', t < k.1 + 500 → fireTimer t h' w1 = None) ∧
     (∀ t, k.1 + 500 ≤ t →
        ∃ w2, fireTimer t h w1 = Some w2 ∧
              frames w2 = frames w ++ [shown] ∧ timers w2 = [] ∧
              currentPage (mgr w2) = 1 ∧ searchTerm (mgr w2) = fr_term shown)).
Proof.
  intros Hw Hq k shown.
  pose proof (pending_first w t1 term1 Hw) as Hp. split.
  - intros tr w' Honly Hks Hrun. simpl in Hrun.
    rewrite Z.leb_refl in Hrun. simpl in Hrun.
    eapply run_pending in Hrun; [|exact Hp|simpl; lia|done|by rewrite Hks].
    rewrite Hks in Hrun. fold k in Hrun.
    destruct Hrun as [(h' & _ & Ht & Hf)|Hfired]; [left|by right].
    split; [done|]. by exists h'.
  - destruct (run_keystrokes ks _ _ _ _ _ Hp Hq) as (w1 & h & Hrun & Hp1).
    fold k in Hp1. exists w1, h. simpl in Hrun |- *.
    rewrite Z.leb_refl. simpl.
    pose proof Hp1 as (_ & Ht & Hf). split_and!; [done..| |].
    + intros t h' Hlt. pose proof (pending_fire _ _ _ _ _ t h' Hp1) as Hfire.
      destruct (fireTimer t h' w1); [lia|done].
    + intros t Hle. pose proof (pending_fire _ _ _ _ _ t h Hp1) as Hfire.
      destruct (fireTimer t h w1) as [w2|].
      * exists w2. by destruct Hfire as (_ & _ & ? & ? & ? & ?).
      * destruct Hfire; [lia|done].
Qed.

(** The burst a, ab, abc typed within 200 ms on the fresh page: one frame
    is drawn after the frame of the start, and it is drawn for abc. *)
Lemma debounce_last_search_only_witness :
  ∃ w1 h w2,
    run 0 (keystrokes [(0, "a"); (100, "ab"); (200, "abc")]) initial = Some w1 ∧
    frames w1 = frames initial ∧
    fireTimer 700 h w1 = Some w2 ∧
    frames w2 = frames initial ++ [searchFrame "abc" (mgr initial)] ∧
    fr_term (searchFrame "abc" (mgr initial)) = "abc".
Proof.
  destruct (debounce_last_search_only initial 0 "a" [(100, "ab"); (200, "abc")])
    as [_ (w1 & h & Hrun & Hf & _ & _ & Hfire)].
  - apply wellFormed_initial.
  - simpl. lia.
  - destruct (Hfire 700) as (w2 & Hw2 & Hf2 & _); [simpl; lia|].
    exists w1, h, w2. split_and!; [done..|reflexivity].
Defined.

(** * Further properties of the code *)

(** ** Pages *)

Lemma slice_take_drop {A} (l : list A) (start stop : Z) :
  0 ≤ start → start ≤ stop →
  JS.slice l start stop = take (Z.to_nat (stop - start)) (drop (Z.to_nat start) l).
Proof.
  intros Hs Hst. apply list_eq. intros i.
  rewrite slice_lookup by done. case_decide.
  - rewrite lookup_take_lt by lia. by rewrite lookup_drop.
  - by rewrite lookup_take_ge by lia.
Qed.

Lemma join_pages {A} (l : list A) (c : nat) (n : nat) :
  mjoin ((λ k : Z, take c (drop (Z.to_nat (k - 1) * c) l)) <$> seqZ 1 (Z.of_nat n))
  = take (n * c) l.
Proof.
  induction n as [|n IH]; [done|].
  rewrite seqZ_S, fmap_app, join_app, IH. simpl. rewrite app_nil_r.
  replace (Z.to_nat (1 + Z.of_nat n - 1)) with n by lia.
  rewrite take_take_drop. f_equal. lia.
Qed.

Lemma products_of_page k m :
  1 ≤ k → 0 < itemsPerPage m →
  pg_products (getPaginatedProducts (set_currentPage k m)) =
  take (Z.to_nat (itemsPerPage m))
       (drop (Z.to_nat (k - 1) * Z.to_nat (itemsPerPage m)) (getFilteredProducts m)).
Proof.
  intros Hk Hi. unfold getPaginatedProducts. cbn [pg_products].
  change (getFilteredProducts (set_currentPage k m)) with (getFilteredProducts m).
  change (currentPage (set_currentPage k m)) with k.
  change (itemsPerPage (set_currentPage k m)) with (itemsPerPage m).
  rewrite slice_take_drop by nia. f_equal; [f_equal; lia|f_equal; nia].
Qed.

(** The pages 1 .. totalPages, one after the other, are the filtered
    products: each of them is on exactly one page, in collection order. *)
Theorem pages_partition_filtered (m : ProductManager) :
  0 < itemsPerPage m →
  mjoin ((λ k, pg_products (getPaginatedProducts (set_currentPage k m)))
           <$> seqZ 1 (pg_totalPages (getPaginatedProducts m)))
  = getFilteredProducts m.
Proof.
  intros Hi.
  set (tp := pg_totalPages (getPaginatedProducts m)).
  set (l := getFilteredProducts m).
  pose proof (Math_ceil_quotient (Z.of_nat (length l)) (itemsPerPage m) Hi) as Hc.
  cbv zeta in Hc. change (JS.Math_ceil _) with tp in Hc.
  assert (Htp : 0 ≤ tp) by nia.
  transitivity (mjoin ((λ k : Z, take (Z.to_nat (itemsPerPage m))
                    (drop (Z.to_nat (k - 1) * Z.to_nat (itemsPerPage m)) l))
                  <$> seqZ 1 tp)).
  - f_equal. apply list_fmap_ext. intros i k Hk.
    apply lookup_seqZ in Hk as [-> _]. apply products_of_page; lia.
  - rewrite <- (Z2Nat.id tp) by done. rewrite join_pages.
    apply take_ge. nia.
Qed.

Lemma pages_partition_filtered_witness :
  let m := mgr (after sevenAdds) in
  0 < itemsPerPage m ∧
  mjoin ((λ k, pg_products (getPaginatedProducts (set_currentPage k m)))
           <$> seqZ 1 (pg_totalPages (getPaginatedProducts m)))
  = getFilteredProducts m.
Proof.
  intros m. split; [vm_compute; reflexivity|].
  apply pages_partition_filtered. vm_compute. reflexivity.
Defined.

(** Every page before the last one is full; the last one holds at least
    one product and at most a page full. *)
Theorem page_sizes (m : ProductManager) :
  paged m →
  let view := getPaginatedProducts m in
  let shown := Z.of_nat (length (pg_products view)) in
  (currentPage m < pg_totalPages view → shown = itemsPerPage m) ∧
  (currentPage m = pg_totalPages view → 0 < shown ≤ itemsPerPage m) ∧
  (pg_totalPages view < currentPage m → shown = 0).
Proof.
  intros Hp view shown.
  destruct (pagination_bounds m Hp) as [Hc Hl]. destruct Hp as [Hp Hi].
  fold view in Hc, Hl. fold shown in Hl. split_and!; intros H; nia.
Qed.

Lemma page_sizes_witness :
  let m := mgr (after sevenAdds) in
  Z.of_nat (length (pg_products (getPaginatedProducts m))) = itemsPerPage m.
Proof.
  intros m. destruct (page_sizes m) as [H _].
  - split; vm_compute; congruence.
  - apply H. vm_compute. reflexivity.
Defined.

(** A page request that [changePage] accepts never lands on an empty page:
    the frame it draws shows at least one product. *)
Theorem changePage_shows_products (w : World) (n : Z) :
  0 < itemsPerPage (mgr w) →
  1 ≤ n ≤ pg_totalPages (getPaginatedProducts (mgr w)) →
  let w' := changePage n w in
  pg_products (getPaginatedProducts (mgr w')) ≠ [] ∧
  ∃ f, last (frames w') = Some f ∧ fr_current f = n ∧
       fr_page f = getPaginatedProducts (mgr w') ∧ pg_products (fr_page f) ≠ [].
Proof.
  intros Hi Hn w'.
  assert (Hw' : w' = renderProducts (with_mgr (set_currentPage n) w)).
  { unfold w', changePage.
    destruct (Z.leb_spec 1 n); [|lia].
    destruct (Z.leb_spec n (pg_totalPages (getPaginatedProducts (mgr w)))); [done|lia]. }
  set (m' := set_currentPage n (mgr w)).
  assert (Hm : mgr w' = m') by by rewrite Hw'.
  assert (Hne : pg_products (getPaginatedProducts m') ≠ []).
  { assert (Hp : paged m') by (split; simpl; lia).
    destruct (pagination_bounds m' Hp) as [Hc Hl].
    intros E. rewrite E in Hl.
    change (getFilteredProducts m') with (getFilteredProducts (mgr w)) in *.
    change (pg_totalPages (getPaginatedProducts m'))
      with (pg_totalPages (getPaginatedProducts (mgr w))) in *.
    change (currentPage m') with n in *.
    change (itemsPerPage m') with (itemsPerPage (mgr w)) in *.
    simpl length in Hl. nia. }
  rewrite Hm. split; [done|].
  exists {| fr_view := currentView m'; fr_current := n; fr_term := searchTerm m';
            fr_page := getPaginatedProducts m' |}.
  rewrite Hw', frames_renderProducts, last_snoc. done.
Qed.

Lemma changePage_shows_products_witness :
  pg_products (getPaginatedProducts (mgr (changePage 2 (after sevenAdds)))) ≠ [].
Proof.
  destruct (changePage_shows_products (after sevenAdds) 2) as [H _].
  - vm_compute. reflexivity.
  - vm_compute. split; congruence.
  - exact H.
Defined.

(** ** More on strings *)

Section MoreStrings.

Implicit Types s t u : string.

Lemma trimStart_suffix s : ∃ pre, s = pre +:+ JS.trimStart s.
Proof.
  induction s as [|c s [pre IH]]; [by exists ""|]. simpl.
  destruct (JS.isWhiteSpace c); [|by exists ""].
  exists (String c pre). by rewrite append_cons, <- IH.
Qed.

Lemma trimEnd_prefix s : ∃ post, s = JS.trimEnd s +:+ post.
Proof.
  induction s as [|c s [post IH]]; [by exists ""|]. simpl.
  destruct (JS.trimEnd s) as [|c' r] eqn:E.
  - destruct (JS.isWhiteSpace c).
    + by exists (String c s).
    + exists s. by rewrite append_cons, append_nil_l.
  - exists post. by rewrite append_cons, <- IH.
Qed.

(** The trimmed string occurs in the string. *)
Lemma includes_trim s : JS.includes s (JS.trim s) = true.
Proof.
  apply includes_spec. unfold JS.trim.
  destruct (trimStart_suffix s) as [pre Hpre].
  destruct (trimEnd_prefix (JS.trimStart s)) as [post Hpost].
  exists pre, post. by rewrite <- Hpost.
Qed.

Lemma includes_trans s t u :
  JS.includes s t = true → JS.includes t u = true → JS.includes s u = true.
Proof.
  rewrite !includes_spec. intros (a & b & ->) (c & d & ->).
  exists (a +:+ c), (d +:+ b). by rewrite !append_assoc.
Qed.

Lemma includes_empty t : JS.includes "" t = true → t = "".
Proof.
  rewrite includes_spec. intros (pre & post & H).
  destruct pre; [|done]. by destruct t.
Qed.

Lemma trimStart_noLeadingSpace s : noLeadingSpace (JS.trimStart s).
Proof.
  induction s as [|c s IH]; [done|]. simpl.
  by destruct (JS.isWhiteSpace c) eqn:E.
Qed.

Lemma trimStart_id s : noLeadingSpace s → JS.trimStart s = s.
Proof. destruct s as [|c s]; [done|]. simpl. by intros ->. Qed.

Lemma trimEnd_noLeadingSpace s : noLeadingSpace s → noLeadingSpace (JS.trimEnd s).
Proof.
  destruct s as [|c s]; [done|]. simpl. intros Hc.
  destruct (JS.trimEnd s); [by rewrite Hc|done].
Qed.

Lemma trimEnd_idemp s : JS.trimEnd (JS.trimEnd s) = JS.trimEnd s.
Proof.
  induction s as [|c s IH]; [done|]. simpl.
  destruct (JS.trimEnd s) as [|c' r] eqn:E.
  - destruct (JS.isWhiteSpace c) eqn:Ec; [done|]. simpl. by rewrite Ec.
  - simpl in *. rewrite IH. done.
Qed.

Lemma trim_idemp s : JS.trim (JS.trim s) = JS.trim s.
Proof.
  unfold JS.trim.
  rewrite (trimStart_id (JS.trimEnd _)), trimEnd_idemp; [done|].
  apply trimEnd_noLeadingSpace, trimStart_noLeadingSpace.
Qed.

End MoreStrings.

Lemma filter_sublist_impl {A} (P Q : A → Prop)
    `{∀ x, Decision (P x)} `{∀ x, Decision (Q x)} (l : list A) :
  (∀ x, P x → Q x) → sublist (filter P l) (filter Q l).
Proof.
  intros HPQ. induction l as [|x l IH]; [done|].
  rewrite !filter_cons. destruct (decide (P x)) as [HP|HP].
  - rewrite decide_True by auto. by constructor.
  - destruct (decide (Q x)); [by constructor|done].
Qed.

(** ** Searching *)

(** Typing on narrows the result: when the term in force occurs in the new
    term, every product the new term keeps was kept before, in the same
    order. *)
Theorem longer_term_narrows (w : World) (t t' : Z) (term term' : string) :
  JS.includes (JS.trim (JS.toLowerCase term')) (JS.trim (JS.toLowerCase term)) = true →
  sublist (getFilteredProducts (mgr (handleSearch t' term' w)))
          (getFilteredProducts (mgr (handleSearch t term w))).
Proof.
  intros Hinc. unfold getFilteredProducts.
  rewrite !searchTerm_handleSearch, !products_handleSearch.
  destruct (JS.trim (JS.toLowerCase term')) as [|c' r'] eqn:E'.
  - apply includes_empty in Hinc. by rewrite Hinc.
  - destruct (JS.trim (JS.toLowerCase term)) as [|c r] eqn:E; simpl.
    + apply sublist_filter.
    + apply filter_sublist_impl. intros p Hp. by eapply includes_trans.
Qed.

Lemma longer_term_narrows_witness :
  let w := after sevenAdds in
  sublist (getFilteredProducts (mgr (handleSearch 9100 "Widg" w)))
          (getFilteredProducts (mgr (handleSearch 9000 "wi" w))).
Proof.
  intros w. apply longer_term_narrows. vm_compute. reflexivity.
Defined.

(** Searching for the name of a product of the collection, in whatever
    case and with white space around it, keeps that product. *)
Theorem search_by_name_finds (w : World) (t : Z) (p : Product) (term : string) :
  JS.toLowerCase (JS.trim term) = JS.toLowerCase (JS.trim (name p)) →
  p ∈ products (mgr w) →
  p ∈ getFilteredProducts (mgr (handleSearch t term w)).
Proof.
  intros Hterm Hp. unfold getFilteredProducts.
  rewrite searchTerm_handleSearch, products_handleSearch, trim_toLowerCase, Hterm.
  destruct (JS.truthy _); simpl; [|done].
  apply list_elem_of_filter. split; [|done].
  rewrite <- trim_toLowerCase. apply includes_trim.
Qed.

Lemma search_by_name_finds_witness :
  let w := after sevenAdds in
  Forall (λ p, p ∈ getFilteredProducts (mgr (handleSearch 9000 " WIDGET " w)))
         (products (mgr w)).
Proof.
  intros w. apply Forall_forall. intros p Hp.
  apply search_by_name_finds; [|done].
  vm_compute in Hp.
  repeat (apply elem_of_cons in Hp as [->|Hp]; [reflexivity|]).
  by apply elem_of_nil in Hp.
Defined.

(** ** What holds of every state of the page *)

(** A property of the fresh page that every listener and timer keeps
    holds of every state the page can reach. *)
Lemma reachable_ind (P : World → Prop) :
  P initial →
  (∀ t e w w', wellFormed w → P w → step t e w = Some w' → P w') →
  ∀ w, reachable w → P w.
Proof.
  intros Hinit Hstep w (t0 & tr & Hrun).
  assert (G : ∀ tr t0 w0, wellFormed w0 → P w0 → run t0 tr w0 = Some w → P w).
  { clear t0 tr Hrun. intros tr.
    induction tr as [|[t e] tr IH]; intros t0 w0 Hw0 HP Hrun; simpl in Hrun.
    - by injection Hrun as <-.
    - destruct (t0 <=? t); [|done].
      destruct (step t e w0) as [w1|] eqn:Hs; [|done]. simpl in Hrun.
      apply (IH t w1); [by eapply wellFormed_step|by eapply Hstep|done]. }
  by apply (G tr t0 initial); [apply wellFormed_initial|..].
Qed.

(** On the running page the page number never drops below 1, the page
    size stays 6, the id under edit (if any) is not empty, and at most one
    search timer is pending, namely the one [debounceTimer] holds. *)
Theorem session_invariant (w : World) :
  reachable w →
  1 ≤ currentPage (mgr w) ∧ itemsPerPage (mgr w) = 6 ∧
  (∀ i, editingId (mgr w) = Some i → i ≠ "") ∧
  (length (timers w) ≤ 1)%nat ∧
  (∀ h d, (h, d) ∈ timers w → debounceTimer (mgr w) = Some h).
Proof.
  intros (Hp & Hi & _ & He & Ht)%reachable_wellFormed. split_and!; [done..| | |].
  - intros i [z ->]%He Hz. pose proof (toString_truthy z) as Htr.
    by rewrite Hz in Htr.
  - destruct Ht as [->|(h & d & -> & _)]; simpl; lia.
  - intros h d Hin. destruct Ht as [E|(h' & d' & E & Hd)]; rewrite E in Hin.
    + by apply elem_of_nil in Hin.
    + apply list_elem_of_singleton in Hin. congruence.
Qed.

Lemma session_invariant_witness :
  1 ≤ currentPage (mgr (after sevenAdds)) ∧ itemsPerPage (mgr (after sevenAdds)) = 6.
Proof.
  destruct (session_invariant (after sevenAdds)) as (H1 & H2 & _).
  - exists 0, sevenAdds. vm_compute. reflexivity.
  - split; [exact H1|exact H2].
Defined.

Lemma normalTerm_handleSearch term : normalTerm (JS.trim (JS.toLowerCase term)).
Proof.
  split.
  - by rewrite <- trim_toLowerCase, toLowerCase_idemp.
  - apply trim_idemp.
Qed.

Lemma reachable_normalTerm w : reachable w → normalTerm (searchTerm (mgr w)).
Proof.
  revert w. apply reachable_ind; [done|].
  intros t e w w' _ HP Hs.
  destruct e as [d now|i confirmed|i| |field|fieldName|term|h|page|view];
    try (eapply step_keeps_search in Hs as [_ Hx]; [by rewrite Hx|exact I]).
  - cbn [step] in Hs. injection Hs as <-. rewrite searchTerm_handleSearch.
    apply normalTerm_handleSearch.
  - cbn [step] in Hs. by apply fireTimer_page in Hs as (_ & -> & _).
Qed.

(** On the running page the search term in force is always lower case
    and trimmed, so the filter step is case-insensitive in every state:
    without a term it returns the collection, with one exactly the products
    whose name contains it up to case. *)
Theorem filter_ignores_case_always (w : World) :
  reachable w →
  let term := searchTerm (mgr w) in
  JS.toLowerCase term = term ∧ JS.trim term = term ∧
  getFilteredProducts (mgr w) =
  if decide (term = "") then products (mgr w)
  else filter (λ p, containsIgnoreCase (name p) term) (products (mgr w)).
Proof.
  intros [Hlow Htrim]%reachable_normalTerm term. fold term in Hlow, Htrim.
  split_and!; [done..|]. unfold getFilteredProducts. fold term.
  destruct (decide (term = "")) as [->|Hne]; [done|].
  destruct (JS.truthy term) eqn:E; [|by apply truthy_empty in E].
  simpl. apply list_filter_iff. intros p.
  rewrite <- includes_ignoreCase. by rewrite Hlow.
Qed.

Lemma filter_ignores_case_always_witness :
  let w := after (sevenAdds ++ [(9000, Search " WID ")]) in
  searchTerm (mgr w) = "wid" ∧ JS.toLowerCase (searchTerm (mgr w)) = searchTerm (mgr w).
Proof.
  intros w. split; [vm_compute; reflexivity|].
  destruct (filter_ignores_case_always w) as [H _]; [|exact H].
  exists 0, (sevenAdds ++ [(9000, Search " WID ")]). vm_compute. reflexivity.
Defined.

(** ** Parsing ignores white space around a number *)

Section Parsing.

Implicit Types s t ws : string.

Ltac each_char c := destruct c as [[] [] [] [] [] [] [] []].

Lemma trimEnd_spec s : ∃ ws, allSpace ws ∧ s = JS.trimEnd s +:+ ws.
Proof.
  induction s as [|c s (ws & Hws & IH)]; [by exists ""|]. simpl.
  destruct (JS.trimEnd s) as [|c' r] eqn:E.
  - rewrite append_nil_l in IH. subst ws.
    destruct (JS.isWhiteSpace c) eqn:Ec.
    + by exists (String c s).
    + exists s. by rewrite append_cons, append_nil_l.
  - exists ws. split; [done|]. by rewrite append_cons, <- IH.
Qed.

Lemma trimStart_allSpace ws : allSpace ws → JS.trimStart ws = "".
Proof. induction ws as [|c ws IH]; [done|]. simpl. intros [-> ?]. auto. Qed.

Lemma trimStart_app_space s ws :
  allSpace ws →
  JS.trimStart (s +:+ ws) = JS.trimStart s +:+ ws ∨
  JS.trimStart (s +:+ ws) = "" ∧ JS.trimStart s = "".
Proof.
  intros Hws. induction s as [|c s IH].
  - right. by rewrite append_nil_l, trimStart_allSpace.
  - rewrite append_cons. simpl. destruct (JS.isWhiteSpace c); [done|].
    left. by rewrite append_cons.
Qed.

Lemma signOf_app_space s ws :
  allSpace ws → JS.signOf (s +:+ ws) = ((JS.signOf s).1, (JS.signOf s).2 +:+ ws).
Proof.
  intros Hws. destruct s as [|c s].
  - rewrite append_nil_l. destruct ws as [|c ws]; [done|].
    destruct Hws as [Hc _]. each_char c; done.
  - rewrite append_cons. each_char c; done.
Qed.

Lemma startsWith_app_space s t ws :
  allSpace ws → noSpace t → JS.startsWith (s +:+ ws) t = JS.startsWith s t.
Proof.
  intros Hws. revert s. induction t as [|b t IH]; intros s Ht; [done|].
  destruct Ht as [Hb Ht]. destruct s as [|a s].
  - rewrite append_nil_l. destruct ws as [|c ws]; [done|]. simpl.
    destruct Hws as [Hc _]. case_decide; [congruence|done].
  - rewrite append_cons. simpl. case_decide; [by apply IH|done].
Qed.

Lemma digits_app_space (val : ascii → option N) radix s ws :
  (∀ c, JS.isWhiteSpace c = true → val c = None) → allSpace ws →
  ∀ n a, JS.digits val radix n a (s +:+ ws) =
         let '(n', a', r) := JS.digits val radix n a s in (n', a', r +:+ ws).
Proof.
  intros Hval Hws. induction s as [|c s IH]; intros n a.
  - rewrite append_nil_l. destruct ws as [|c ws]; [done|]. simpl.
    destruct Hws as [Hc _]. by rewrite (Hval c Hc).
  - rewrite append_cons. simpl. destruct (val c); [apply IH|done].
Qed.

Lemma digitVal_space c : JS.isWhiteSpace c = true → JS.digitVal c = None.
Proof. each_char c; done. Qed.

Lemma hexVal_space c : JS.isWhiteSpace c = true → JS.hexVal c = None.
Proof. each_char c; done. Qed.

Lemma exponentPart_app_space s ws :
  allSpace ws → JS.exponentPart (s +:+ ws) = JS.exponentPart s.
Proof.
  intros Hws. destruct s as [|c s].
  - rewrite append_nil_l. destruct ws as [|c ws]; [done|].
    destruct Hws as [Hc _]. each_char c; done.
  - rewrite append_cons.
    assert (G : (let '(neg, r') := JS.signOf (s +:+ ws) in
                 match JS.digits JS.digitVal 10 0 0 r' with
                 | (O, _, _) => 0
                 | (_, n, _) => if neg then - Z.of_N n else Z.of_N n
                 end) =
                (let '(neg, r') := JS.signOf s in
                 match JS.digits JS.digitVal 10 0 0 r' with
                 | (O, _, _) => 0
                 | (_, n, _) => if neg then - Z.of_N n else Z.of_N n
                 end)).
    { rewrite signOf_app_space by done. destruct (JS.signOf s) as [neg r]. simpl.
      rewrite (digits_app_space _ _ _ _ digitVal_space Hws).
      by destruct (JS.digits JS.digitVal 10 0 0 r) as [[[|?] ?] ?]. }
    each_char c; try reflexivity; exact G.
Qed.

(** The part of [parseFloat] after the sign has been read. *)
Let unsignedFloat (neg : bool) (body : string) : JS.number :=
  if JS.startsWith body "Infinity" then JS.Infinity neg
  else
    let '(ni, int, rest) := JS.digits JS.digitVal 10 0 0 body in
    match rest with
    | String "." frac =>
        let '(nf, m, rest') := JS.digits JS.digitVal 10 0 int frac in
        match ni, nf with
        | O, O => JS.NaN
        | _, _ => JS.Num neg m (JS.exponentPart rest' - Z.of_nat nf)
        end
    | _ =>
        match ni with
        | O => JS.NaN
        | _ => JS.Num neg int (JS.exponentPart rest)
        end
    end.

Lemma unsignedFloat_app_space neg body ws :
  allSpace ws → unsignedFloat neg (body +:+ ws) = unsignedFloat neg body.
Proof.
  intros Hws. unfold unsignedFloat.
  rewrite startsWith_app_space by (done || by vm_compute).
  destruct (JS.startsWith body "Infinity"); [done|].
  rewrite (digits_app_space _ _ _ _ digitVal_space Hws).
  destruct (JS.digits JS.digitVal 10 0 0 body) as [[ni int] rest].
  pose proof (exponentPart_app_space rest ws Hws) as HE.
  destruct rest as [|c frac].
  - rewrite append_nil_l in *. destruct ws as [|c ws]; [done|].
    destruct Hws as [Hc _]. each_char c; try done; by rewrite HE.
  - rewrite append_cons in *.
    assert (G : (let '(nf, m, rest') := JS.digits JS.digitVal 10 0 int (frac +:+ ws) in
                 match ni, nf with
                 | O, O => JS.NaN
                 | _, _ => JS.Num neg m (JS.exponentPart rest' - Z.of_nat nf)
                 end) =
                (let '(nf, m, rest') := JS.digits JS.digitVal 10 0 int frac in
                 match ni, nf with
                 | O, O => JS.NaN
                 | _, _ => JS.Num neg m (JS.exponentPart rest' - Z.of_nat nf)
                 end)).
    { rewrite (digits_app_space _ _ _ _ digitVal_space Hws).
      destruct (JS.digits JS.digitVal 10 0 int frac) as [[nf m] rest'].
      by rewrite exponentPart_app_space. }
    each_char c; first [exact G|by rewrite HE].
Qed.

Lemma parseFloat_unsigned s :
  JS.parseFloat s =
  unsignedFloat (JS.signOf (JS.trimStart s)).1 (JS.signOf (JS.trimStart s)).2.
Proof. unfold JS.parseFloat. by destruct (JS.signOf _). Qed.

Lemma parseFloat_app_space s ws :
  allSpace ws → JS.parseFloat (s +:+ ws) = JS.parseFloat s.
Proof.
  intros Hws. rewrite !parseFloat_unsigned.
  destruct (trimStart_app_space s ws Hws) as [->|[-> ->]]; [|done].
  rewrite signOf_app_space by done. simpl. by apply unsignedFloat_app_space.
Qed.

(** The part of [parseInt] after the sign has been read. *)
Let unsignedInt (neg : bool) (body : string) : JS.number :=
  let '(val, radix, body) :=
    match body with
    | String "0" (String "x" r) | String "0" (String "X" r) => (JS.hexVal, 16%N, r)
    | _ => (JS.digitVal, 10%N, body)
    end in
  match JS.digits val radix 0 0 body with
  | (O, _, _) => JS.NaN
  | (_, n, _) => JS.Num neg n 0
  end.

Lemma decimalInt_app_space neg ws body :
  allSpace ws →
  match JS.digits JS.digitVal 10 0 0 (body +:+ ws) with
  | (O, _, _) => JS.NaN
  | (_, n, _) => JS.Num neg n 0
  end =
  match JS.digits JS.digitVal 10 0 0 body with
  | (O, _, _) => JS.NaN
  | (_, n, _) => JS.Num neg n 0
  end.
Proof.
  intros Hws. rewrite (digits_app_space _ _ _ _ digitVal_space Hws).
  by destruct (JS.digits JS.digitVal 10 0 0 body) as [[[|?] ?] ?].
Qed.

Lemma unsignedInt_app_space neg body ws :
  allSpace ws → unsignedInt neg (body +:+ ws) = unsignedInt neg body.
Proof.
  intros Hws. unfold unsignedInt.
  pose proof (decimalInt_app_space neg ws body Hws) as HD.
  destruct body as [|c1 body].
  - rewrite append_nil_l in *. destruct ws as [|c ws]; [done|].
    destruct Hws as [Hc _]. each_char c; try done; exact HD.
  - rewrite append_cons in *. each_char c1; try exact HD.
    destruct body as [|c2 body].
    + rewrite append_nil_l in *. destruct ws as [|c ws]; [done|].
      destruct Hws as [Hc _]. each_char c; try done; exact HD.
    + rewrite append_cons in *.
      assert (G : match JS.digits JS.hexVal 16 0 0 (body +:+ ws) with
                  | (O, _, _) => JS.NaN
                  | (_, n, _) => JS.Num neg n 0
                  end =
                  match JS.digits JS.hexVal 16 0 0 body with
                  | (O, _, _) => JS.NaN
                  | (_, n, _) => JS.Num neg n 0
                  end).
      { rewrite (digits_app_space _ _ _ _ hexVal_space Hws).
        by destruct (JS.digits JS.hexVal 16 0 0 body) as [[[|?] ?] ?]. }
      each_char c2; first [exact HD|exact G].
Qed.

Lemma parseInt_unsigned s :
  JS.parseInt s =
  unsignedInt (JS.signOf (JS.trimStart s)).1 (JS.signOf (JS.trimStart s)).2.
Proof. unfold JS.parseInt. by destruct (JS.signOf _). Qed.

Lemma parseInt_app_space s ws :
  allSpace ws → JS.parseInt (s +:+ ws) = JS.parseInt s.
Proof.
  intros Hws. rewrite !parseInt_unsigned.
  destruct (trimStart_app_space s ws Hws) as [->|[-> ->]]; [|done].
  rewrite signOf_app_space by done. simpl. by apply unsignedInt_app_space.
Qed.

Lemma trimStart_idemp s : JS.trimStart (JS.trimStart s) = JS.trimStart s.
Proof. apply trimStart_id, trimStart_noLeadingSpace. Qed.

(** [parseFloat] and [parseInt] read the same number from a text and
    from the trimmed text. *)
Lemma parseFloat_trim s : JS.parseFloat (JS.trim s) = JS.parseFloat s.
Proof.
  unfold JS.trim.
  destruct (trimEnd_spec (JS.trimStart s)) as (ws & Hws & E).
  transitivity (JS.parseFloat (JS.trimStart s)).
  - rewrite E at 2. by rewrite parseFloat_app_space.
  - by rewrite !parseFloat_unsigned, trimStart_idemp.
Qed.

Lemma parseInt_trim s : JS.parseInt (JS.trim s) = JS.parseInt s.
Proof.
  unfold JS.trim.
  destruct (trimEnd_spec (JS.trimStart s)) as (ws & Hws & E).
  transitivity (JS.parseInt (JS.trimStart s)).
  - rewrite E at 2. by rewrite parseInt_app_space.
  - by rewrite !parseInt_unsigned, trimStart_idemp.
Qed.

End Parsing.

(** ** What the form accepts, and what it stores *)

Lemma truthy_true s : JS.truthy s = true ↔ s ≠ "".
Proof. by destruct s. Qed.

Lemma checkField_required_plain fieldName value :
  fieldName ≠ "price" → fieldName ≠ "stock" →
  (checkField {| f_name := fieldName; f_value := value; f_required := true |}).1 = true
  ↔ JS.trim value ≠ "".
Proof.
  intros Hp Hs. unfold checkField. simpl.
  rewrite !bool_decide_eq_false_2 by done. simpl.
  destruct (JS.truthy (JS.trim value)) eqn:E; simpl.
  - by apply truthy_true in E.
  - apply truthy_empty in E. by split.
Qed.

Lemma checkField_price value :
  (checkField {| f_name := "price"; f_value := value; f_required := true |}).1 = true
  ↔ JS.trim value ≠ "" ∧ JS.isNaN (JS.parseFloat value) = false ∧
    JS.ltZero (JS.parseFloat value) = false.
Proof.
  unfold checkField. simpl. rewrite parseFloat_trim.
  destruct (JS.truthy (JS.trim value)) eqn:E; simpl.
  - apply truthy_true in E.
    destruct (JS.isNaN _), (JS.ltZero _); simpl; intuition congruence.
  - apply truthy_empty in E. intuition congruence.
Qed.

Lemma checkField_stock value :
  (checkField {| f_name := "stock"; f_value := value; f_required := true |}).1 = true
  ↔ JS.trim value ≠ "" ∧ JS.isNaN (JS.parseInt value) = false ∧
    JS.ltZero (JS.parseInt value) = false.
Proof.
  unfold checkField. simpl. rewrite parseInt_trim.
  destruct (JS.truthy (JS.trim value)) eqn:E; simpl.
  - apply truthy_true in E.
    destruct (JS.isNaN _), (JS.ltZero _); simpl; intuition congruence.
  - apply truthy_empty in E. intuition congruence.
Qed.

(** [validateForm] lets a draft through exactly when its name and category
    are not blank, its price reads as a number that is not negative and its
    stock reads as an integer that is not negative; white space around the
    texts and the description play no part, and neither does the state of
    the page. *)
Theorem validateForm_accepts_iff (d : Draft) (w : World) :
  (validateForm d w).1 = true ↔ acceptable d.
Proof.
  rewrite validateForm_verdict. unfold formControls, acceptable. simpl.
  rewrite !andb_true_iff.
  rewrite (checkField_required_plain "name"), (checkField_required_plain "category")
    by done.
  rewrite checkField_price, checkField_stock. tauto.
Qed.

Lemma validateForm_accepts_iff_witness :
  (validateForm widget initial).1 = true ∧ acceptable widget.
Proof.
  assert (H : (validateForm widget initial).1 = true) by (vm_compute; reflexivity).
  split; [exact H|]. exact (proj1 (validateForm_accepts_iff widget initial) H).
Defined.

Lemma orZero_not_negative x :
  JS.ltZero x = false →
  JS.isNaN (JS.orZero x) = false ∧ JS.ltZero (JS.orZero x) = false.
Proof.
  destruct x as [|neg|neg m e]; simpl; [done..|].
  destruct (JS.roundsToZero m e) eqn:E; simpl; [done|]. by rewrite E.
Qed.

Lemma storable_productData d now w :
  wellFormed w → acceptable d → storable (productData d now (mgr w)).
Proof.
  intros (_ & _ & _ & He & _) (Hn & Hc & (_ & Hp1 & Hp2) & (_ & Hs1 & Hs2)).
  unfold storable, productData. simpl.
  destruct (orZero_not_negative _ Hs2) as [Ho1 Ho2].
  split_and!; try done; try apply trim_idemp.
  unfold editing. destruct (editingId (mgr w)) as [i|] eqn:E; simpl; [|by eexists].
  destruct (JS.truthy i); simpl; [by apply He|by eexists].
Qed.

Lemma products_handleFormSubmit d now w :
  let p := productData d now (mgr w) in
  let ps := products (mgr (handleFormSubmit d now w)) in
  ps = products (mgr w) ∨
  (validateForm d w).1 = true ∧
  (ps = products (mgr w) ++ [p] ∨ ∃ index, ps = <[index := p]> (products (mgr w))).
Proof.
  intros p ps. unfold ps. pose proof (validateForm_frame d w) as (Hm & _).
  destruct (validateForm d w).1 eqn:Hv.
  - right. split; [done|]. rewrite handleFormSubmit_accepted by done.
    cbv zeta. fold p. rewrite products_resetForm.
    destruct (editing (mgr w)).
    + right. unfold updateProduct. rewrite Hm.
      destruct (list_find _ _) as [[index x]|]; simpl.
      * exists index. by rewrite Hm.
      * exists (length (products (mgr w))). rewrite list_insert_ge by done. by rewrite Hm.
    + left. simpl. by rewrite Hm.
  - left. rewrite handleFormSubmit_rejected by done. by rewrite Hm.
Qed.

(** Every product of the collection of the running page is as the form
    stores it: its id is the text of a clock reading, its name is trimmed
    and not empty, its category is not blank, its price and its stock are
    numbers that are not negative, its description is trimmed and its image
    is the placeholder. *)
Theorem stored_products_storable (w : World) :
  reachable w → Forall storable (products (mgr w)).
Proof.
  revert w. apply reachable_ind; [by constructor|].
  intros t e w w' Hw HP Hs.
  destruct e as [d now|i confirmed|i| |field|fieldName|term|h|page|view];
    cbn [step] in Hs; try injection Hs as <-.
  - destruct (products_handleFormSubmit d now w) as [->|[Hv [->| [index ->]]]];
      [done| |].
    + apply Forall_app. split; [done|]. apply Forall_singleton.
      apply storable_productData; [done|]. by apply (validateForm_accepts_iff d w).
    + apply Forall_insert; [done|].
      apply storable_productData; [done|]. by apply (validateForm_accepts_iff d w).
  - rewrite mgr_deleteProduct. destruct confirmed; [|done]. simpl.
    eapply Forall_sublist_alt; [exact HP|apply sublist_filter].
  - by rewrite products_editProduct.
  - done.
  - by destruct (validateField_frame field w) as (-> & _).
  - done.
  - by rewrite products_handleSearch.
  - by rewrite (products_fireTimer _ _ _ _ Hs).
  - by rewrite products_changePage.
  - done.
Qed.

Lemma stored_products_storable_witness :
  Forall storable (products (mgr (after sevenAdds))).
Proof.
  apply stored_products_storable. exists 0, sevenAdds. vm_compute. reflexivity.
Defined.

(** ** The screen follows the state *)

Section Screen.

Lemma set_searchTerm_same m : set_searchTerm (searchTerm m) m = m.
Proof. by destruct m. Qed.

Lemma upToDate_renderProducts w : upToDate (renderProducts w).
Proof.
  eexists. rewrite frames_renderProducts, last_snoc. split; [done|]. simpl.
  split_and!; [done..| |by left]. by rewrite set_searchTerm_same.
Qed.

Lemma getPaginatedProducts_sameView m m' term :
  sameView m m' →
  getPaginatedProducts (set_searchTerm term m') =
  getPaginatedProducts (set_searchTerm term m).
Proof.
  intros (Hp & _ & Hc & Hi & _).
  unfold getPaginatedProducts, getFilteredProducts. simpl. by rewrite Hp, Hc, Hi.
Qed.

Lemma upToDate_sameView w w' :
  sameView (mgr w) (mgr w') → frames w' = frames w → timers w' = timers w →
  upToDate w → upToDate w'.
Proof.
  intros Hsame Hf Ht (f & Hl & Hv & Hc & Hp & Hterm).
  pose proof Hsame as (_ & Hv' & Hc' & _ & Hs').
  exists f. rewrite Hf, Ht, Hv', Hc', Hs'. split_and!; [done..| |done].
  by rewrite (getPaginatedProducts_sameView _ _ _ Hsame).
Qed.

Lemma sameView_refl m : sameView m m.
Proof. by repeat split. Qed.

Lemma upToDate_sameController w w' : sameController w w' → upToDate w → upToDate w'.
Proof.
  intros (Hm & Ht & _ & Hf). apply upToDate_sameView; [|done..].
  rewrite Hm. apply sameView_refl.
Qed.

Lemma upToDate_resetForm w : upToDate w → upToDate (resetForm w).
Proof. by apply upToDate_sameView. Qed.

Lemma upToDate_step t e w w' :
  wellFormed w → upToDate w → step t e w = Some w' → upToDate w'.
Proof.
  intros Hw HP Hs.
  destruct e as [d now|i confirmed|i| |field|fieldName|term|h|page|view];
    cbn [step] in Hs; try injection Hs as <-.
  - pose proof (upToDate_sameController _ _ (validateForm_frame d w) HP) as HP1.
    destruct (validateForm d w).1 eqn:Hv.
    + rewrite handleFormSubmit_accepted by done. cbv zeta.
      apply upToDate_resetForm. destruct (editing (mgr w)).
      * unfold updateProduct. destruct (list_find _ _) as [[??]|]; [|done].
        apply upToDate_renderProducts.
      * apply upToDate_renderProducts.
    + by rewrite handleFormSubmit_rejected.
  - destruct confirmed; [apply upToDate_renderProducts|done].
  - unfold editProduct. destruct (list_find _ _); [|done].
    by apply (upToDate_sameView w).
  - by apply (upToDate_sameView w).
  - by apply (upToDate_sameController w); [apply validateField_frame|].
  - by apply (upToDate_sameView w).
  - destruct HP as (f & Hl & Hv & Hc & Hp & _).
    destruct (handleSearch_timers_last t term w) as [rest Ht].
    exists f. rewrite frames_handleSearch, mgr_handleSearch, Ht.
    split_and!; [done..|]. right. by destruct rest.
  - destruct (fireTimer_Some _ _ _ _ Hw Hs) as (d & _ & _ & -> & _).
    apply upToDate_renderProducts.
  - unfold changePage. destruct (_ && _); [apply upToDate_renderProducts|done].
  - apply upToDate_renderProducts.
Qed.

End Screen.


(** On the running page the frame drawn last always shows the current
    view mode, page and collection. Its search term is the one in force,
    unless a term typed since is still waiting for its timer; once no
    timer is pending the frame is exactly the derived view of the state. *)
Theorem screen_up_to_date (w : World) :
  reachable w →
  ∃ f, last (frames w) = Some f ∧
       fr_view f = currentView (mgr w) ∧
       fr_current f = currentPage (mgr w) ∧
       fr_page f = getPaginatedProducts (set_searchTerm (fr_term f) (mgr w)) ∧
       (fr_term f = searchTerm (mgr w) ∨ timers w ≠ []) ∧
       (timers w = [] →
        fr_term f = searchTerm (mgr w) ∧ fr_page f = getPaginatedProducts (mgr w)).
Proof.
  intros Hreach.
  assert (HP : upToDate w).
  { revert w Hreach. apply reachable_ind.
    - apply (upToDate_renderProducts
               {| mgr := constructed; timers := []; nextHandle := 1%positive;
                  frames := []; fieldErrors := λ _, "" |}).
    - intros t e w w' Hw HP Hs. by eapply upToDate_step. }
  destruct HP as (f & Hl & Hv & Hc & Hp & Ht). exists f.
  split_and!; [done..|]. intros Hnone.
  destruct Ht as [Ht|Ht]; [|done]. split; [done|].
  by rewrite Hp, Ht, set_searchTerm_same.
Qed.

Lemma screen_up_to_date_witness :
  let w := after (sevenAdds ++ [(8000, ChangePage 2)]) in
  ∃ f, last (frames w) = Some f ∧ fr_page f = getPaginatedProducts (mgr w).
Proof.
  intros w. destruct (screen_up_to_date w) as (f & Hl & _ & _ & _ & _ & H).
  - exists 0, (sevenAdds ++ [(8000, ChangePage 2)]). vm_compute. reflexivity.
  - exists f. split; [exact Hl|]. apply H. vm_compute. reflexivity.
Defined.

(** ** Edit, cancel, update, delete *)

(** Starting an edit and cancelling it leaves the controller, the timers
    and the screen as they were before, whether or not the product
    exists. *)
Theorem edit_cancel_round_trip (w : World) (i : string) :
  editingId (mgr w) = None →
  let w' := cancelEdit (editProduct i w) in
  mgr w' = mgr w ∧ timers w' = timers w ∧ frames w' = frames w.
Proof.
  intros He w'. unfold w', cancelEdit, editProduct.
  destruct (list_find _ _); simpl; (split_and!; [|done..]);
    destruct (mgr w); simpl in *; by subst.
Qed.

Lemma edit_cancel_round_trip_witness :
  mgr (cancelEdit (editProduct "1700000003000" (after sevenAdds))) = mgr (after sevenAdds).
Proof.
  destruct (edit_cancel_round_trip (after sevenAdds) "1700000003000") as [H _].
  - vm_compute. reflexivity.
  - exact H.
Defined.

(** When the product under edit has been deleted in the meantime, an
    accepted submit stores nothing and draws nothing: the draft is dropped,
    the collection stays as it is and the form is back to creating. *)
Theorem submit_after_delete_drops_draft (w : World) (d : Draft) (now : Z) (i : string) :
  editing (mgr w) = Some i → i ∉ ids w → (validateForm d w).1 = true →
  let w' := handleFormSubmit d now w in
  products (mgr w') = products (mgr w) ∧ frames w' = frames w ∧
  editingId (mgr w') = None.
Proof.
  intros He Hnot Hv w'. unfold w'.
  rewrite handleFormSubmit_accepted by done. cbv zeta. rewrite He.
  destruct (validateForm_frame d w) as (Hm & _ & _ & Hf).
  assert (Hu : updateProduct (productData d now (mgr w)) (validateForm d w).2
               = (validateForm d w).2).
  { unfold updateProduct. rewrite Hm.
    destruct (list_find _ _) as [[index x]|] eqn:E; [|done].
    apply list_find_Some in E as (Hx & Hid & _). destruct Hnot.
    rewrite id_productData, He in Hid. simpl in Hid. subst i.
    unfold ids. apply list_elem_of_fmap. exists x. split; [done|].
    by eapply list_elem_of_lookup_2. }
  rewrite Hu. simpl. by rewrite Hm, Hf.
Qed.

Lemma submit_after_delete_drops_draft_witness :
  let w := after (sevenAdds ++ [(8000, Edit "1700000003000");
                                (8500, Delete "1700000003000" true)]) in
  length (products (mgr w)) = 6%nat ∧
  products (mgr (handleFormSubmit widget 1700000009000 w)) = products (mgr w).
Proof.
  intros w. split; [vm_compute; reflexivity|].
  destruct (submit_after_delete_drops_draft w widget 1700000009000 "1700000003000")
    as [H _]; [vm_compute; reflexivity| |vm_compute; reflexivity|exact H].
  vm_compute. intros Hin.
  repeat (apply elem_of_cons in Hin as [Hin|Hin]; [done|]).
  by apply elem_of_nil in Hin.
Defined.

(** [updateProduct] keeps the number of products and the id at every
    position, and touches no product but the first one carrying the id;
    with an id the collection does not have it changes nothing, not even
    the screen. *)
Theorem updateProduct_in_place (p : Product) (w : World) :
  let w' := updateProduct p w in
  length (products (mgr w')) = length (products (mgr w)) ∧
  ids w' = ids w ∧
  (id p ∉ ids w → w' = w) ∧
  (∀ j x, products (mgr w) !! j = Some x →
     id x ≠ id p ∨ (∃ k y, (k < j)%nat ∧ products (mgr w) !! k = Some y ∧ id y = id p) →
     products (mgr w') !! j = Some x).
Proof.
  intros w'. split_and!.
  - rewrite <- !(length_fmap id). apply (f_equal length (ids_updateProduct p w)).
  - apply ids_updateProduct.
  - intros Hnot. unfold w', updateProduct.
    destruct (list_find _ _) as [[index x]|] eqn:E; [|done].
    apply list_find_Some in E as (Hx & Hid & _). destruct Hnot.
    unfold ids. apply list_elem_of_fmap. exists x. split; [done|].
    by eapply list_elem_of_lookup_2.
  - intros j x Hj Hother. unfold w', updateProduct.
    destruct (list_find _ _) as [[index y]|] eqn:E; [|done].
    apply list_find_Some in E as (Hy & Hid & Hleast). simpl.
    rewrite list_lookup_insert_ne; [done|]. intros ->.
    destruct Hother as [Hne|(k & z & Hk & Hz & Hzid)].
    + congruence.
    + by apply (Hleast k z Hz Hk).
Qed.

Lemma updateProduct_in_place_witness :
  let w := after sevenAdds in
  updateProduct (productData widget 5 (mgr w)) w = w.
Proof.
  intros w. destruct (updateProduct_in_place (productData widget 5 (mgr w)) w)
    as (_ & _ & H & _).
  apply H. vm_compute. intros Hin.
  repeat (apply elem_of_cons in Hin as [Hin|Hin]; [done|]).
  by apply elem_of_nil in Hin.
Defined.

(** [deleteProduct]: declined, it changes nothing. Confirmed, it removes
    every product carrying the id and keeps the others in their order; with
    an id the collection does not have the collection stays as it is; a
    second delete of the same id removes nothing more. *)
Theorem deleteProduct_removes_id (i : string) (w : World) :
  deleteProduct i false w = w ∧
  (let w' := deleteProduct i true w in
   (i ∉ ids w') ∧
   sublist (products (mgr w')) (products (mgr w)) ∧
   (∀ p, p ∈ products (mgr w') ↔ p ∈ products (mgr w) ∧ id p ≠ i) ∧
   (i ∉ ids w → products (mgr w') = products (mgr w)) ∧
   products (mgr (deleteProduct i true w')) = products (mgr w')).
Proof.
  split; [done|]. intros w'.
  assert (Hps : products (mgr w') = filter (λ p, id p ≠ i) (products (mgr w))).
  { unfold w'. by rewrite mgr_deleteProduct. }
  assert (Hps' : products (mgr (deleteProduct i true w'))
                 = filter (λ p, id p ≠ i) (products (mgr w'))).
  { by rewrite mgr_deleteProduct. }
  rewrite Hps'. unfold ids at 1. rewrite Hps. split_and!.
  - intros (p & Hid & Hp)%list_elem_of_fmap.
    apply list_elem_of_filter in Hp as [Hne _]. congruence.
  - apply sublist_filter.
  - intros p. rewrite list_elem_of_filter. tauto.
  - intros Hfresh. apply filter_all, Forall_forall. intros p Hp Hid.
    apply Hfresh. unfold ids. apply list_elem_of_fmap. by exists p.
  - apply filter_all, Forall_forall. intros p Hp.
    by apply list_elem_of_filter in Hp as [? _].
Qed.

Lemma deleteProduct_removes_id_witness :
  let w := after sevenAdds in
  products (mgr (deleteProduct "5" true w)) = products (mgr w).
Proof.
  intros w. destruct (deleteProduct_removes_id "5" w) as (_ & _ & _ & _ & H & _).
  apply H. vm_compute. intros Hin.
  repeat (apply elem_of_cons in Hin as [Hin|Hin]; [done|]).
  by apply elem_of_nil in Hin.
Defined.

(** ** Error texts *)

Lemma append_nonempty s t : t ≠ "" → s +:+ t ≠ "".
Proof. by destruct s. Qed.

(** A field shows an error text exactly when its check fails. *)
Lemma checkField_text field : (checkField field).2 = "" ↔ (checkField field).1 = true.
Proof.
  unfold checkField.
  repeat match goal with |- context [if ?b then _ else _] => destruct b end; simpl;
    try done.
  split; [|done]. intros H. by apply append_nonempty in H.
Qed.

(** [validateField], run when a field loses focus, writes the error text
    of that field only, leaves the controller, the timers and the screen
    alone, and the text it writes is empty exactly when the field passes.
    Typing in a field ([clearFieldError]) clears the text of that field
    only. *)
Theorem validateField_own_text (field : Field) (w : World) :
  let w' := (validateField field w).2 in
  sameController w w' ∧
  fieldErrors w' (f_name field) = (checkField field).2 ∧
  (fieldErrors w' (f_name field) = "" ↔ (validateField field w).1 = true) ∧
  (∀ n, n ≠ f_name field → fieldErrors w' n = fieldErrors w n) ∧
  fieldErrors (clearFieldError (f_name field) w') (f_name field) = "" ∧
  (∀ n, n ≠ f_name field →
     fieldErrors (clearFieldError (f_name field) w') n = fieldErrors w n).
Proof.
  intros w'. pose proof (checkField_text field) as Htext.
  unfold w', validateField in *. destruct (checkField field) as [ok text]. simpl in *.
  rewrite decide_True by done. split_and!; try done.
  - intros n Hn. by rewrite decide_False.
  - by rewrite decide_True.
  - intros n Hn. by rewrite !decide_False.
Qed.

Lemma validateField_own_text_witness :
  fieldErrors (validateField {| f_name := "stock"; f_value := "x"; f_required := true |}
                 initial).2 "price" = "".
Proof.
  destruct (validateField_own_text
              {| f_name := "stock"; f_value := "x"; f_required := true |} initial)
    as (_ & _ & _ & H & _).
  rewrite H; [reflexivity|]. simpl. congruence.
Defined.

(** A rejected submit reports every failing required field at once: the
    error text of each of name, price, category and stock is the text of
    its own check (empty when it passes), and the text of the description
    is left as it was. An accepted submit clears every error text. *)
Theorem submit_reports_every_field (d : Draft) (now : Z) (w : World) :
  let w' := handleFormSubmit d now w in
  ((validateForm d w).1 = false →
   (∀ f, f ∈ formControls d → f_required f = true →
         fieldErrors w' (f_name f) = (checkField f).2) ∧
   fieldErrors w' "description" = fieldErrors w "description") ∧
  ((validateForm d w).1 = true → ∀ n, fieldErrors w' n = "").
Proof.
  intros w'. split; intros Hv.
  - unfold w'. rewrite handleFormSubmit_rejected by done.
    unfold validateForm, formControls. simpl. unfold visitField, validateField.
    split.
    + intros f Hf Hreq.
      repeat (apply elem_of_cons in Hf as [->|Hf]); [..|by apply elem_of_nil in Hf];
        try done;
        repeat match goal with
               | |- context [checkField ?x] => destruct (checkField x); simpl
               end; reflexivity.
    + repeat match goal with
             | |- context [checkField ?x] => destruct (checkField x); simpl
             end; reflexivity.
  - intros n. unfold w'. by rewrite handleFormSubmit_accepted.
Qed.

Lemma submit_reports_every_field_witness :
  let d := {| d_name := ""; d_price := "-5"; d_category := "Electronics";
              d_stock := "many"; d_description := "" |} in
  let w' := handleFormSubmit d 1700000009000 initial in
  fieldErrors w' "name" = "Name is required" ∧
  fieldErrors w' "price" = "Price must be a valid positive number" ∧
  fieldErrors w' "category" = "" ∧
  fieldErrors w' "stock" = "Stock must be a valid non-negative integer".
Proof.
  intros d w'.
  destruct (submit_reports_every_field d 1700000009000 initial) as [[H _] _];
    [vm_compute; reflexivity|].
  split_and!.
  - apply (H {| f_name := "name"; f_value := ""; f_required := true |});
      [left|reflexivity].
  - apply (H {| f_name := "price"; f_value := "-5"; f_required := true |});
      [right; left|reflexivity].
  - apply (H {| f_name := "category"; f_value := "Electronics"; f_required := true |});
      [do 2 right; left|reflexivity].
  - apply (H {| f_name := "stock"; f_value := "many"; f_required := true |});
      [do 3 right; left|reflexivity].
Defined.

(** ** The pagination bar *)

Section Pager.


(** The bar for more than one page: Previous, the shortcut to page 1, the
    window [start .. stop], the shortcut to the last page, Next; the window
    lies within the pages and holds five of them, or all when there are
    fewer. *)
Lemma renderPagination_shape totalPages m :
  1 < totalPages →
  ∃ start stop,
    1 ≤ start ∧ start ≤ stop ∧ stop ≤ totalPages ∧
    stop - start + 1 = Z.min 5 totalPages ∧
    (1 ≤ currentPage m ≤ totalPages → start ≤ currentPage m ≤ stop) ∧
    renderPagination totalPages m =
    [PageButton "Previous" (currentPage m - 1) false (currentPage m =? 1)] ++
    (if 1 <? start
     then PageButton "1" 1 false false :: (if 2 <? start then [Ellipsis] else [])
     else []) ++
    ((λ i, PageButton (JS.toString i) i (i =? currentPage m) false)
       <$> seqZ start (stop - start + 1)) ++
    (if stop <? totalPages
     then (if stop <? totalPages - 1 then [Ellipsis] else []) ++
          [PageButton (JS.toString totalPages) totalPages false false]
     else []) ++
    [PageButton "Next" (currentPage m + 1) false (currentPage m =? totalPages)].
Proof.
  intros Ht. unfold renderPagination.
  destruct (Z.leb_spec totalPages 1); [lia|].
  change (Math_floor (inject_Z 5 / inject_Z 2)) with 2.
  unfold Math_max, Math_min. cbv zeta.
  set (start0 := Z.max 1 (currentPage m - 2)).
  set (stop := Z.min totalPages (start0 + 5 - 1)).
  destruct (Z.ltb_spec (stop - start0) (5 - 1)).
  - exists (Z.max 1 (stop - 5 + 1)), stop. split_and!; [lia..|done].
  - exists start0, stop. split_and!; [lia..|done].
Qed.




(** A button of the bar is marked active only when the current page is one
    of the pages. *)
Lemma bar_active_in_range totalPages m label target disabled :
  1 < totalPages →
  PageButton label target true disabled ∈ renderPagination totalPages m →
  1 ≤ currentPage m ≤ totalPages.
Proof.
  intros Ht Hin.
  destruct (renderPagination_shape _ m Ht)
    as (start & stop & H1 & H2 & H3 & H4 & H5 & E).
  rewrite E in Hin. clear E.
  repeat (apply elem_of_app in Hin as [Hin|Hin]).
  - by apply list_elem_of_singleton in Hin.
  - destruct (1 <? start); [|by apply elem_of_nil in Hin].
    apply elem_of_cons in Hin as [Hin|Hin]; [done|].
    destruct (2 <? start); [|by apply elem_of_nil in Hin].
    by apply list_elem_of_singleton in Hin.
  - apply list_elem_of_fmap in Hin as (i & Hi & Hseq).
    injection Hi as -> -> Hact ->. symmetry in Hact.
    apply Z.eqb_eq in Hact. subst i. apply elem_of_seqZ in Hseq. lia.
  - destruct (stop <? totalPages); [|by apply elem_of_nil in Hin].
    apply elem_of_app in Hin as [Hin|Hin].
    + destruct (stop <? totalPages - 1); [|by apply elem_of_nil in Hin].
      by apply list_elem_of_singleton in Hin.
    + by apply list_elem_of_singleton in Hin.
  - by apply list_elem_of_singleton in Hin.
Qed.

End Pager.



(** The bar for more than one page always offers page 1 and the last
    page, shows at most five page numbers next to them, and marks as active
    exactly the button of the current page (none when the current page is
    not one of the pages). *)
Theorem pager_marks_current_page (totalPages : Z) (m : ProductManager) :
  1 < totalPages →
  let bar := renderPagination totalPages m in
  (∃ active, PageButton "1" 1 active false ∈ bar) ∧
  (∃ active, PageButton (JS.toString totalPages) totalPages active false ∈ bar) ∧
  (length bar ≤ 11)%nat ∧
  (∀ label target disabled,
     PageButton label target true disabled ∈ bar ↔
     1 ≤ currentPage m ≤ totalPages ∧
     label = JS.toString (currentPage m) ∧ target = currentPage m ∧ disabled = false).
Proof.
  intros Ht bar.
  destruct (renderPagination_shape _ m Ht)
    as (start & stop & H1 & H2 & H3 & H4 & H5 & E).
  unfold bar. rewrite E. clear E bar.
  set (numbered := λ i, PageButton (JS.toString i) i (i =? currentPage m) false).
  assert (Hnum : ∀ i, start ≤ i ≤ stop → numbered i ∈ numbered <$> seqZ start (stop - start + 1)).
  { intros i Hi. apply list_elem_of_fmap. exists i. split; [done|].
    apply elem_of_seqZ. lia. }
  split_and!.
  - destruct (Z.ltb_spec 1 start).
    + exists false. rewrite !elem_of_app. right. left. left.
    + exists (1 =? currentPage m). rewrite !elem_of_app. right. right. left.
      apply (Hnum 1). lia.
  - destruct (Z.ltb_spec stop totalPages).
    + exists false. rewrite !elem_of_app. do 3 right. left. right.
      by apply list_elem_of_singleton.
    + exists (totalPages =? currentPage m). rewrite !elem_of_app. right. right. left.
      apply (Hnum totalPages). lia.
  - destruct (1 <? start), (2 <? start), (stop <? totalPages), (stop <? totalPages - 1);
      rewrite !length_app, length_fmap, length_seqZ; simpl; lia.
  - intros label target disabled. split.
    + intros Hin. repeat (apply elem_of_app in Hin as [Hin|Hin]).
      * by apply list_elem_of_singleton in Hin.
      * destruct (1 <? start); [|by apply elem_of_nil in Hin].
        apply elem_of_cons in Hin as [Hin|Hin]; [done|].
        destruct (2 <? start); [|by apply elem_of_nil in Hin].
        by apply list_elem_of_singleton in Hin.
      * apply list_elem_of_fmap in Hin as (i & Hi & Hseq).
        injection Hi as -> -> Hact ->. symmetry in Hact.
        apply Z.eqb_eq in Hact. subst i. apply elem_of_seqZ in Hseq.
        split_and!; [lia..|done|done|done].
      * destruct (stop <? totalPages); [|by apply elem_of_nil in Hin].
        apply elem_of_app in Hin as [Hin|Hin].
        -- destruct (stop <? totalPages - 1); [|by apply elem_of_nil in Hin].
           by apply list_elem_of_singleton in Hin.
        -- by apply list_elem_of_singleton in Hin.
      * by apply list_elem_of_singleton in Hin.
    + intros (Hcur & -> & -> & ->). rewrite !elem_of_app. right. right. left.
      apply list_elem_of_fmap. exists (currentPage m).
      unfold numbered. rewrite Z.eqb_refl. split; [done|]. apply elem_of_seqZ. lia.
Qed.

Lemma pager_marks_current_page_witness :
  PageButton "2" 2 true false
    ∈ renderPagination 2 (mgr (after (sevenAdds ++ [(8000, ChangePage 2)]))).
Proof.
  destruct (pager_marks_current_page 2
              (mgr (after (sevenAdds ++ [(8000, ChangePage 2)])))) as (_ & _ & _ & H);
    [lia|].
  apply H. vm_compute. repeat split; congruence.
Defined.

(** ** What the screen shows *)

(** With nothing to show the container holds the empty state, worded by
    whether a search term is in force, and there is no pagination bar. On
    a page within the pages the container holds the table or the grid,
    after the view mode, of exactly the products of that page, at least
    one, and the bar is the one of [renderPagination]. *)
Theorem screen_shows_page (m : ProductManager) :
  paged m →
  let view := getPaginatedProducts m in
  (pg_total view = 0%nat →
   pagination (screen m) = [] ∧
   container (screen m) =
   if decide (searchTerm m = "")
   then EmptyState "No products yet" "Add your first product using the form on the left"
   else EmptyState "No products found" "Try adjusting your search term") ∧
  (pg_total view ≠ 0%nat → currentPage m ≤ pg_totalPages view →
   pg_products view ≠ [] ∧
   container (screen m) =
   match currentView m with
   | ListView => ListTable (pg_products view)
   | CardView => CardGrid (pg_products view)
   end ∧
   pagination (screen m) = renderPagination (pg_totalPages view) m).
Proof.
  intros Hp view. split.
  - intros H0. unfold screen, getEmptyStateHTML. fold view. rewrite H0. simpl.
    split; [done|]. rewrite andb_true_r.
    destruct (decide (searchTerm m = "")) as [->|Hne]; [done|].
    by apply truthy_true in Hne as ->.
  - intros Hne Hcur.
    assert (Hshown : pg_products view ≠ []).
    { destruct (pagination_bounds m Hp) as [Hc Hl]. fold view in Hc, Hl.
      intros E. rewrite E in Hl. simpl in Hl.
      change (length (getFilteredProducts m)) with (pg_total view) in *.
      destruct Hp as [Hp Hi]. nia. }
    split; [done|]. unfold screen. fold view.
    destruct (Nat.eqb_spec (pg_total view) 0); [done|]. cbn [container pagination].
    split; [|done]. unfold renderListView, renderCardView.
    destruct (Nat.eqb_spec (length (pg_products view)) 0) as [E|_].
    + by apply nil_length_inv in E.
    + by destruct (currentView m).
Qed.

Lemma screen_shows_page_witness :
  let m := mgr (after sevenAdds) in
  container (screen m) = ListTable (pg_products (getPaginatedProducts m)).
Proof.
  intros m. destruct (screen_shows_page m) as [_ H].
  - split; vm_compute; congruence.
  - destruct H as (_ & H & _); [vm_compute; congruence..|exact H].
Defined.

(** When the current page lies beyond the last page (a delete has taken
    the last product of the page shown), the container holds the empty
    state worded No products yet, with or without a search term and
    although products are there to show, in either view mode; and when a
    single page is left there is no pagination bar to leave the page by. *)
Theorem stale_page_looks_empty (m : ProductManager) :
  paged m →
  let view := getPaginatedProducts m in
  pg_total view ≠ 0%nat → pg_totalPages view < currentPage m →
  container (screen m) =
    EmptyState "No products yet" "Add your first product using the form on the left" ∧
  (pg_totalPages view = 1 → pagination (screen m) = []) ∧
  (∀ label target disabled,
     PageButton label target true disabled ∉ pagination (screen m)).
Proof.
  intros Hp view Hne Hstale.
  assert (Hshown : pg_products view = []).
  { destruct (pagination_bounds m Hp) as [Hc Hl]. fold view in Hc, Hl.
    apply nil_length_inv, Nat2Z.inj. rewrite Hl. destruct Hp as [Hp Hi]. nia. }
  unfold screen. fold view.
  destruct (Nat.eqb_spec (pg_total view) 0) as [|_]; [done|]. cbn [container pagination].
  split_and!.
  - unfold renderListView, renderCardView, getEmptyStateHTML. fold view.
    rewrite Hshown. cbn [length Nat.eqb].
    destruct (Nat.eqb_spec (pg_total view) 0) as [|_]; [done|].
    rewrite andb_false_r. by destruct (currentView m).
  - intros ->. reflexivity.
  - intros label target disabled Hin.
    destruct (Z.leb_spec (pg_totalPages view) 1) as [Hle|Hgt].
    + unfold renderPagination in Hin.
      destruct (Z.leb_spec (pg_totalPages view) 1); [|lia].
      by apply elem_of_nil in Hin.
    + apply (bar_active_in_range _ m _ _ _ Hgt) in Hin. lia.
Qed.

Lemma stale_page_looks_empty_witness :
  let w := after (sevenAdds ++ [(8000, ChangePage 2);
                                (9000, Delete "1700000007000" true)]) in
  length (products (mgr w)) = 6%nat ∧
  container (screen (mgr w)) =
    EmptyState "No products yet" "Add your first product using the form on the left" ∧
  pagination (screen (mgr w)) = [].
Proof.
  intros w. split; [vm_compute; reflexivity|].
  destruct (stale_page_looks_empty (mgr w)) as (Hc & Hb & _);
    [split; vm_compute; congruence|vm_compute; congruence|vm_compute; reflexivity|].
  split; [exact Hc|]. apply Hb. vm_compute. reflexivity.
Defined.

(** ** The theme *)

Lemma orDefault_toggled e :
  ∃ t, (t = "light" ∨ t = "dark") ∧ toggleTheme e = {| dataTheme := Some t; savedTheme := Some t |}.
Proof.
  unfold toggleTheme, setTheme. case_decide; eauto.
Qed.

(** [toggleTheme] always ends in the light or the dark theme, with the
    attribute of the document and the stored preference in agreement;
    toggling twice more comes back to it, and from the light or the dark
    theme two toggles give back the theme one started from. *)
Theorem theme_toggles_between_two (e : Theme) :
  let e1 := toggleTheme e in
  (∃ t, (t = "light" ∨ t = "dark") ∧ dataTheme e1 = Some t ∧ savedTheme e1 = Some t) ∧
  toggleTheme (toggleTheme e1) = e1 ∧
  (dataTheme e = Some "light" ∨ dataTheme e = Some "dark" →
   dataTheme (toggleTheme e1) = dataTheme e) ∧
  (orDefault (dataTheme e) "light" = "light" ↔ dataTheme e1 = Some "dark").
Proof.
  intros e1. destruct (orDefault_toggled e) as (t & Ht & E). unfold e1.
  split_and!.
  - exists t. by rewrite E.
  - rewrite E. by destruct Ht as [-> | ->].
  - intros [H|H]; unfold toggleTheme; rewrite H; reflexivity.
  - unfold toggleTheme. case_decide; simpl; split; congruence.
Qed.

Lemma theme_toggles_between_two_witness :
  let e := {| dataTheme := Some "dark"; savedTheme := Some "dark" |} in
  dataTheme (toggleTheme (toggleTheme e)) = dataTheme e.
Proof.
  intros e. destruct (theme_toggles_between_two e) as (_ & _ & H & _).
  apply H. right. reflexivity.
Defined.

(** [initTheme] applies the stored preference, or the light theme when
    none is stored (or an empty one), and stores what it applies. The
    theme chosen by a toggle therefore survives a reload of the page. *)
Theorem theme_survives_reload (e : Theme) :
  (savedTheme e = None ∨ savedTheme e = Some "" →
   initTheme e = {| dataTheme := Some "light"; savedTheme := Some "light" |}) ∧
  (∀ t, savedTheme e = Some t → t ≠ "" →
        initTheme e = {| dataTheme := Some t; savedTheme := Some t |}) ∧
  initTheme (reload (toggleTheme e)) = toggleTheme e ∧
  initTheme (reload (initTheme e)) = initTheme e.
Proof.
  split_and!.
  - intros [H|H]; unfold initTheme; by rewrite H.
  - intros t H Ht. unfold initTheme. rewrite H. simpl.
    by apply truthy_true in Ht as ->.
  - destruct (orDefault_toggled e) as (t & Ht & ->).
    by destruct Ht as [-> | ->].
  - unfold initTheme, reload, setTheme. simpl.
    destruct (savedTheme e) as [t|]; simpl; [|done].
    destruct (JS.truthy t) eqn:E; simpl; [|done]. by rewrite E.
Qed.

Lemma theme_survives_reload_witness :
  initTheme {| dataTheme := None; savedTheme := Some "dark" |}
  = {| dataTheme := Some "dark"; savedTheme := Some "dark" |}.
Proof.
  destruct (theme_survives_reload {| dataTheme := None; savedTheme := Some "dark" |})
    as (_ & H & _).
  apply (H "dark"); [reflexivity|congruence].
Defined.

(** ** Escaping text for markup *)

Section Escape.

Lemma occurs_app c s t : occurs c (s +:+ t) ↔ occurs c s ∨ occurs c t.
Proof.
  induction s as [|a s IH]; [rewrite append_nil_l; simpl; tauto|].
  rewrite append_cons. simpl. rewrite IH. tauto.
Qed.

Lemma code_nbsp c : JS.code c = 160%N → c = nbsp.
Proof.
  intros H. rewrite <- (ascii_N_embedding c). unfold JS.code in H. by rewrite H.
Qed.

(** What [escapeChar] puts in front of the rest. *)
Lemma escapeChar_cases c r :
  (c = "&"%char ∧ escapeChar c +:+ r = "&amp;" +:+ r) ∨
  (c = "<"%char ∧ escapeChar c +:+ r = "&lt;" +:+ r) ∨
  (c = ">"%char ∧ escapeChar c +:+ r = "&gt;" +:+ r) ∨
  (c = nbsp ∧ escapeChar c +:+ r = "&nbsp;" +:+ r) ∨
  (c ≠ "&"%char ∧ c ≠ "<"%char ∧ c ≠ ">"%char ∧ c ≠ nbsp ∧
   escapeChar c +:+ r = String c r).
Proof.
  unfold escapeChar. repeat case_decide; subst; auto 10.
  - right. right. right. left. split; [by apply code_nbsp|done].
  - do 4 right. split_and!; try done. by intros ->.
Qed.

End Escape.

(** [escapeHtml] never lets an angle bracket or a non-breaking space
    through, so escaped text cannot open or close a tag; it leaves text
    without ampersand, angle brackets and non-breaking space as it is; and
    it keeps the double quote, which occurs in the result exactly when it
    occurs in the text. *)
Theorem escapeHtml_no_brackets (text : string) :
  ¬ occurs "<" (escapeHtml text) ∧ ¬ occurs ">" (escapeHtml text) ∧
  ¬ occurs nbsp (escapeHtml text) ∧
  (¬ occurs "&" text ∧ ¬ occurs "<" text ∧ ¬ occurs ">" text ∧ ¬ occurs nbsp text →
   escapeHtml text = text) ∧
  (occurs quote (escapeHtml text) ↔ occurs quote text).
Proof.
  induction text as [|c text (IH1 & IH2 & IH3 & IH4 & IH5)]; [simpl; tauto|].
  cbn [escapeHtml].
  destruct (escapeChar_cases c (escapeHtml text))
    as [[-> ->]|[[-> ->]|[[-> ->]|[[-> ->]|(Ha & Hl & Hg & Hn & ->)]]]].
  1-4: split_and!; rewrite ?occurs_app; simpl;
    try (intros H; decompose [or and] H; try done; tauto).
  1-4: split; intros H; decompose [or and] H; try done; tauto.
  simpl. split_and!; try tauto.
  - intros (H1 & H2 & H3 & H4). f_equal. apply IH4. tauto.
Qed.

Lemma escapeHtml_no_brackets_witness :
  escapeHtml "Widget 3000" = "Widget 3000".
Proof.
  destruct (escapeHtml_no_brackets "Widget 3000") as (_ & _ & _ & H & _).
  apply H. vm_compute. repeat split; intros K; decompose [or] K; congruence.
Defined.

(** [escapeHtml] is one-to-one: two names that differ are shown
    differently. *)
Theorem escapeHtml_inj (s t : string) : escapeHtml s = escapeHtml t → s = t.
Proof.
  revert t. induction s as [|a s IH]; intros [|b t] H; cbn [escapeHtml] in H.
  - done.
  - destruct (escapeChar_cases b (escapeHtml t))
      as [[_ E]|[[_ E]|[[_ E]|[[_ E]|(_ & _ & _ & _ & E)]]]]; by rewrite E in H.
  - destruct (escapeChar_cases a (escapeHtml s))
      as [[_ E]|[[_ E]|[[_ E]|[[_ E]|(_ & _ & _ & _ & E)]]]]; by rewrite E in H.
  - destruct (escapeChar_cases a (escapeHtml s))
      as [[-> Ea]|[[-> Ea]|[[-> Ea]|[[-> Ea]|(Ha & _ & _ & _ & Ea)]]]];
    destruct (escapeChar_cases b (escapeHtml t))
      as [[-> Eb]|[[-> Eb]|[[-> Eb]|[[-> Eb]|(Hb & _ & _ & _ & Eb)]]]];
    rewrite Ea, Eb in H;
    change ("&amp;" +:+ ?r) with (String "&" (String "a" (String "m" (String "p" (String ";" r))))) in H;
    change ("&lt;" +:+ ?r) with (String "&" (String "l" (String "t" (String ";" r)))) in H;
    change ("&gt;" +:+ ?r) with (String "&" (String "g" (String "t" (String ";" r)))) in H;
    change ("&nbsp;" +:+ ?r)
      with (String "&" (String "n" (String "b" (String "s" (String "p" (String ";" r)))))) in H;
    try discriminate H; injection H as ?; subst;
    try done; f_equal; by apply IH.
Qed.

Lemma escapeHtml_inj_witness : "a<b" = "a<b".
Proof. apply escapeHtml_inj. reflexivity. Defined.

(** ** Operations together *)

Lemma sublist_filter_mono {A} (P : A → Prop) `{∀ x, Decision (P x)} (l1 l2 : list A) :
  sublist l1 l2 → sublist (filter P l1) (filter P l2).
Proof.
  induction 1 as [|x l1 l2 _ IH|x l1 l2 _ IH]; [done| |].
  - rewrite !filter_cons. destruct (decide (P x)); [by constructor|done].
  - rewrite filter_cons. destruct (decide (P x)); [by constructor|done].
Qed.

Lemma getFilteredProducts_sublist m ps :
  sublist ps (products m) →
  sublist (getFilteredProducts (set_products ps m)) (getFilteredProducts m).
Proof.
  intros Hsub. unfold getFilteredProducts. simpl.
  destruct (JS.truthy (searchTerm m)); simpl; [|done]. by apply sublist_filter_mono.
Qed.

Lemma getFilteredProducts_snoc m p :
  ∃ l, (length l ≤ 1)%nat ∧
       getFilteredProducts (set_products (products m ++ [p]) m) = getFilteredProducts m ++ l.
Proof.
  unfold getFilteredProducts. simpl.
  destruct (JS.truthy (searchTerm m)); simpl.
  - rewrite filter_app. eexists. split; [|done].
    rewrite filter_cons, filter_nil. case_decide; simpl; lia.
  - by exists [p].
Qed.

Lemma totalPages_mono m m' :
  0 < itemsPerPage m → itemsPerPage m' = itemsPerPage m →
  (length (getFilteredProducts m) ≤ length (getFilteredProducts m'))%nat →
  pg_totalPages (getPaginatedProducts m) ≤ pg_totalPages (getPaginatedProducts m').
Proof.
  intros Hi Hi' Hlen.
  pose proof (Math_ceil_quotient (Z.of_nat (length (getFilteredProducts m))) _ Hi) as H1.
  pose proof (Math_ceil_quotient (Z.of_nat (length (getFilteredProducts m'))) _ Hi) as H2.
  cbv zeta in H1, H2. unfold getPaginatedProducts. cbn [pg_totalPages]. rewrite Hi'.
  nia.
Qed.

(** The number of pages follows the collection: adding a product adds at
    most one page and removes none, deleting adds none; neither moves the
    current page. *)
Theorem page_count_follows_collection (w : World) :
  0 < itemsPerPage (mgr w) →
  let pages w := pg_totalPages (getPaginatedProducts (mgr w)) in
  (∀ p, pages w ≤ pages (addProduct p w) ≤ pages w + 1 ∧
        currentPage (mgr (addProduct p w)) = currentPage (mgr w)) ∧
  (∀ i confirmed,
     pages (deleteProduct i confirmed w) ≤ pages w ∧
     currentPage (mgr (deleteProduct i confirmed w)) = currentPage (mgr w)).
Proof.
  intros Hi pages. split.
  - intros p. split; [|done]. unfold pages, addProduct. simpl mgr.
    destruct (getFilteredProducts_snoc (mgr w) p) as (l & Hl & E).
    set (m' := set_products (products (mgr w) ++ [p]) (mgr w)) in *.
    split.
    + apply totalPages_mono; [done..|]. rewrite E, length_app. lia.
    + pose proof (Math_ceil_quotient
                    (Z.of_nat (length (getFilteredProducts (mgr w)))) _ Hi) as H1.
      pose proof (Math_ceil_quotient
                    (Z.of_nat (length (getFilteredProducts m'))) _ Hi) as H2.
      cbv zeta in H1, H2. rewrite E, length_app in H2.
      unfold getPaginatedProducts. cbn [pg_totalPages].
      change (itemsPerPage m') with (itemsPerPage (mgr w)).
      rewrite E, length_app. nia.
  - intros i confirmed. rewrite mgr_deleteProduct.
    destruct confirmed; [|by split]. split; [|done]. unfold pages.
    apply totalPages_mono; [done..|].
    apply sublist_length, getFilteredProducts_sublist, sublist_filter.
Qed.

Lemma page_count_follows_collection_witness :
  let w := after sevenAdds in
  pg_totalPages (getPaginatedProducts (mgr (deleteProduct "1700000007000" true w)))
  ≤ pg_totalPages (getPaginatedProducts (mgr w)).
Proof.
  intros w. destruct (page_count_follows_collection w) as [_ H];
    [vm_compute; reflexivity|].
  apply (H "1700000007000" true).
Defined.

(** What has been added can be found: after a submit that adds, the new
    product is the last of the collection, and a search for the name as it
    was typed in the form keeps it. *)
Theorem added_product_found_by_name (w : World) (d : Draft) (now t : Z) :
  adds d w →
  let w1 := handleFormSubmit d now w in
  let p := productData d now (mgr w) in
  products (mgr w1) = products (mgr w) ++ [p] ∧
  id p = JS.toString now ∧ name p = JS.trim (d_name d) ∧
  p ∈ getFilteredProducts (mgr (handleSearch t (d_name d) w1)).
Proof.
  intros [Hv He] w1 p.
  assert (Hps : products (mgr w1) = products (mgr w) ++ [p]).
  { unfold w1. rewrite handleFormSubmit_accepted by done. cbv zeta. rewrite He.
    destruct (validateForm_frame d w) as (Hm & _). simpl. by rewrite Hm. }
  split_and!; [done| |done|].
  - unfold p. by rewrite id_productData, He.
  - unfold getFilteredProducts.
    rewrite searchTerm_handleSearch, products_handleSearch, Hps.
    destruct (JS.truthy _); simpl.
    + apply list_elem_of_filter. split.
      * rewrite trim_toLowerCase. change (name p) with (JS.trim (d_name d)).
        apply includes_spec. exists "", "". by rewrite append_nil_l, append_nil_r.
      * apply elem_of_app. right. by apply list_elem_of_singleton.
    + apply elem_of_app. right. by apply list_elem_of_singleton.
Qed.

Lemma added_product_found_by_name_witness :
  let w1 := handleFormSubmit widget 1700000009000 (after sevenAdds) in
  productData widget 1700000009000 (mgr (after sevenAdds))
    ∈ getFilteredProducts (mgr (handleSearch 9500 "Widget" w1)).
Proof.
  intros w1.
  destruct (added_product_found_by_name (after sevenAdds) widget 1700000009000 9500)
    as (_ & _ & _ & H); [|exact H].
  split; vm_compute; reflexivity.
Defined.

(** No listener draws twice: each event leaves the frames as they are or
    adds one. A keystroke in the search box, starting or cancelling an
    edit, the validation of a field, a rejected submit, a declined delete
    and a page request out of range draw nothing. *)
Theorem handlers_draw_at_most_once (t : Z) (e : Event) (w w' : World) :
  step t e w = Some w' →
  (frames w' = frames w ∨ ∃ f, frames w' = frames w ++ [f]) ∧
  (match e with
   | Search _ | Edit _ | CancelEdit | Blur _ | Input _ => True
   | Submit d _ => (validateForm d w).1 = false
   | Delete _ confirmed => confirmed = false
   | ChangePage n =>
       n < 1 ∨ pg_totalPages (getPaginatedProducts (mgr w)) < n
   | Fire _ | SwitchView _ => False
   end → frames w' = frames w).
Proof.
  intros Hs.
  destruct e as [d now|i confirmed|i| |field|fieldName|term|h|page|view];
    cbn [step] in Hs; try injection Hs as <-.
  - destruct (validateForm_frame d w) as (_ & _ & _ & Hf).
    destruct (validateForm d w).1 eqn:Hv.
    + split; [|done]. rewrite handleFormSubmit_accepted by done. cbv zeta.
      destruct (editing (mgr w)); [unfold updateProduct; destruct (list_find _ _) as [[??]|]|];
        simpl; rewrite Hf; eauto.
    + rewrite handleFormSubmit_rejected by done. rewrite Hf. auto.
  - destruct confirmed; simpl; [split; [eauto|done]|auto].
  - unfold editProduct. destruct (list_find _ _); auto.
  - auto.
  - destruct (validateField_frame field w) as (_ & _ & _ & ->). auto.
  - auto.
  - rewrite frames_handleSearch. auto.
  - apply fireTimer_page in Hs as (_ & _ & ->). split; [eauto|done].
  - unfold changePage.
    set (tp := pg_totalPages (getPaginatedProducts (mgr w))). clearbody tp.
    destruct (Z.leb_spec 1 page), (Z.leb_spec page tp);
      simpl; (split; [eauto|]); try done; intros; lia.
  - split; [|done]. right. by eexists.
Qed.

Lemma handlers_draw_at_most_once_witness :
  frames (changePage 3 (after sevenAdds)) = frames (after sevenAdds).
Proof.
  destruct (handlers_draw_at_most_once 8000 (ChangePage 3) (after sevenAdds)
              (changePage 3 (after sevenAdds))) as [_ H]; [reflexivity|].
  apply H. right. vm_compute. reflexivity.
Defined.
